(** * The sales dashboard page: filter model, query dispatch, response handling

    A shallow embedding of [src/frontend-next/src/app/page.tsx] (the [Page]
    component): its React state, the two filter operations
    [toggleSelectAll] and [toggleItem], the effect that runs whenever
    [filters] changes, and the promise handlers of the four POST requests.

    React state is modelled by explicit state passing: every [setX] call is a
    function on [PageState], an effect is the composition of the calls it
    makes, in source order.  The network is a list of outstanding requests;
    an event of the model is a user click or the settling of one request. *)

From stdpp Require Import base decidable numbers list strings countable gmap functions.

Local Open Scope Z_scope.
Local Open Scope string_scope.
Local Open Scope list_scope.

(** ** Values *)

(** A filter value, [string | number] in the source.  The numbers that occur
    are years; they are compared for equality only and are modelled as
    integers. *)
Inductive Item :=
| IStr (s : string)
| INum (n : Z).

#[global] Instance Item_eq_dec : EqDecision Item.
Proof. solve_decision. Defined.

#[global] Instance Item_countable : Countable Item.
Proof.
  refine (inj_countable'
            (λ i, match i with IStr s => inl s | INum n => inr n end)
            (λ e, match e with inl s => IStr s | inr n => INum n end) _).
  by intros [].
Defined.

(** A JavaScript value as it comes out of a response body or sits in a
    result slot.  TypeScript's types are erased at run time, so a slot
    declared [CategoryData[]] holds whatever the handler stored in it.
    Numbers are integers here (the handlers only test them for zero); an
    object is the list of its properties, each name bound once. *)
#[warnings="-register-all"]
Inductive Value :=
| VUndefined
| VNull
| VBool (b : bool)
| VNum (n : Z)
| VStr (s : string)
| VArr (elems : list Value)
| VObj (fields : list (string * Value)).

(** Truthiness, as tested by [||]. *)
Definition truthy (v : Value) : bool :=
  match v with
  | VUndefined | VNull => false
  | VBool b => b
  | VNum n => negb (n =? 0)%Z
  | VStr s => negb (String.eqb s "")
  | VArr _ | VObj _ => true
  end.

(** [a || b] *)
Definition js_or (a b : Value) : Value := if truthy a then a else b.

(** Code that may throw. *)
Inductive result (A : Type) :=
| Ok (a : A)
| Throw.
Arguments Ok {A} a.
Arguments Throw {A}.

#[global] Instance result_bind : MBind result :=
  λ A B k m, match m with Ok a => k a | Throw => Throw end.

(** Property lookup in an object literal: the first binding of the name. *)
Fixpoint lookup_field (name : string) (fields : list (string * Value)) : Value :=
  match fields with
  | [] => VUndefined
  | (k, v) :: rest => if String.eqb k name then v else lookup_field name rest
  end.

(** [v.data]: a TypeError on [undefined] and [null]; [undefined] on a
    primitive or an array, none of which has a property of that name. *)
Definition get_data (v : Value) : result Value :=
  match v with
  | VUndefined | VNull => Throw
  | VObj fields => Ok (lookup_field "data" fields)
  | VBool _ | VNum _ | VStr _ | VArr _ => Ok VUndefined
  end.

(** ** The ES2015 [Set], as far as [toggleItem] uses it

    A [Set] iterates in insertion order and holds no value twice; it is
    modelled by the list of its elements in that order. *)
Module JsSet.
Section ops.
Context {A : Type} `{EqDecision A}.

Definition has (s : list A) (x : A) : bool := bool_decide (x ∈ s).

Definition add (s : list A) (x : A) : list A :=
    if has s x then s else s ++ [x].

Definition delete (s : list A) (x : A) : list A :=
    filter (λ y, y ≠ x) s.

  (** [new Set(iterable)] adds the elements one after the other. *)
Definition new (l : list A) : list A := foldl add [] l.

  (** [Array.from(set)] *)
Definition to_array (s : list A) : list A := s.
End ops.
End JsSet.

(** ** Metadata and filters *)

(** [keyof MetaData] *)
Module Key.
Inductive t := categories | regions | years.

#[global] Instance eq_dec : EqDecision t.
Proof. solve_decision. Defined.
End Key.

(** [interface MetaData].  The [filters] state has the same three fields and
    is given the same type; [toggleItem] stores [Array.from(set) as any], so
    no field is known to hold only strings or only numbers. *)
Record MetaData := {
  categories : list Item;
  regions : list Item;
  years : list Item;
}.

(** [obj[key]] *)
Definition get (key : Key.t) (obj : MetaData) : list Item :=
  match key with
  | Key.categories => categories obj
  | Key.regions => regions obj
  | Key.years => years obj
  end.

(** [{ ...obj, [key]: v }] *)
Definition put (key : Key.t) (v : list Item) (obj : MetaData) : MetaData :=
  match key with
  | Key.categories =>
      {| categories := v; regions := regions obj; years := years obj |}
  | Key.regions =>
      {| categories := categories obj; regions := v; years := years obj |}
  | Key.years =>
      {| categories := categories obj; regions := regions obj; years := v |}
  end.

(** The initial value of both [meta] and [filters]. *)
Definition no_values : MetaData :=
  {| categories := []; regions := []; years := [] |}.

(** The updater that [toggleSelectAll(key)] hands to [setFilters]; [meta] is
    the value the closure captured. *)
Definition toggleSelectAll (meta : MetaData) (key : Key.t) (prev : MetaData)
  : MetaData :=
  let allSelected := Nat.eqb (length (get key prev)) (length (get key meta)) in
  put key (if allSelected then [] else get key meta) prev.

(** The updater that [toggleItem(key, item)] hands to [setFilters]. *)
Definition toggleItem (key : Key.t) (item : Item) (prev : MetaData)
  : MetaData :=
  let set := JsSet.new (get key prev) in
  let set := if JsSet.has set item
             then JsSet.delete set item
             else JsSet.add set item in
  put key (JsSet.to_array set) prev.

(** The selection of one dimension, read as a set. *)
Definition selection_set (key : Key.t) (f : MetaData) : gset Item :=
  list_to_set (get key f).

(** ** Requests *)

(** The four aggregation endpoints. *)
Inductive Endpoint := summary_ep | sales_by_category | sales_by_region | monthly_trend.

#[global] Instance Endpoint_eq_dec : EqDecision Endpoint.
Proof. solve_decision. Defined.

(** The request body; [None] is [null]. *)
Module Body.
Record t := {
    categories : option (list Item);
    regions : option (list Item);
    years : option (list Item);
  }.

Definition get (key : Key.t) (b : t) : option (list Item) :=
    match key with
    | Key.categories => categories b
    | Key.regions => regions b
    | Key.years => years b
    end.
End Body.

(** [xs.length ? xs : null] *)
Definition or_null (xs : list Item) : option (list Item) :=
  if Nat.eqb (length xs) 0 then None else Some xs.

(** The object literal [body] of the filters effect. *)
Definition body (filters : MetaData) : Body.t :=
  {| Body.categories := or_null (categories filters);
     Body.regions := or_null (regions filters);
     Body.years := or_null (years filters) |}.

(** The part of an axios response the handlers read. *)
Record AxiosResponse := { data : Value }.

(** How a request settles: the promise is fulfilled with a response, or
    rejected (transport failure or an error status). *)
Inductive Outcome :=
| Fulfilled (r : AxiosResponse)
| Rejected.

(** ** The state of the component *)

Record PageState := {
  meta : MetaData;
  filters : MetaData;
  summary : Value;
  catData : Value;
  regData : Value;
  trendData : Value;
  loading : bool;
}.

(** The [useState] initial values. *)
Definition initial_state : PageState :=
  {| meta := no_values; filters := no_values;
     summary := VNull; catData := VArr []; regData := VArr [];
     trendData := VObj []; loading := false |}.

Definition setMeta (v : MetaData) (s : PageState) : PageState :=
  {| meta := v; filters := filters s; summary := summary s;
     catData := catData s; regData := regData s; trendData := trendData s;
     loading := loading s |}.

(** [setFilters] is called with a value in the metadata handler and with an
    updater in the two toggles; this is the updater form. *)
Definition setFilters (f : MetaData → MetaData) (s : PageState) : PageState :=
  {| meta := meta s; filters := f (filters s); summary := summary s;
     catData := catData s; regData := regData s; trendData := trendData s;
     loading := loading s |}.

Definition setSummary (v : Value) (s : PageState) : PageState :=
  {| meta := meta s; filters := filters s; summary := v;
     catData := catData s; regData := regData s; trendData := trendData s;
     loading := loading s |}.

Definition setCatData (v : Value) (s : PageState) : PageState :=
  {| meta := meta s; filters := filters s; summary := summary s;
     catData := v; regData := regData s; trendData := trendData s;
     loading := loading s |}.

Definition setRegData (v : Value) (s : PageState) : PageState :=
  {| meta := meta s; filters := filters s; summary := summary s;
     catData := catData s; regData := v; trendData := trendData s;
     loading := loading s |}.

Definition setTrendData (v : Value) (s : PageState) : PageState :=
  {| meta := meta s; filters := filters s; summary := summary s;
     catData := catData s; regData := regData s; trendData := v;
     loading := loading s |}.

Definition setLoading (b : bool) (s : PageState) : PageState :=
  {| meta := meta s; filters := filters s; summary := summary s;
     catData := catData s; regData := regData s; trendData := trendData s;
     loading := b |}.

(** The result slot an endpoint feeds. *)
Definition slot (e : Endpoint) (s : PageState) : Value :=
  match e with
  | summary_ep => summary s
  | sales_by_category => catData s
  | sales_by_region => regData s
  | monthly_trend => trendData s
  end.

(** What a slot holds when it holds no data: the [useState] initial value. *)
Definition empty_data (e : Endpoint) : Value := slot e initial_state.

(** ** Response handlers *)

(** The callback given to [.then] for each endpoint. *)
Definition on_fulfilled (e : Endpoint) (r : AxiosResponse) (s : PageState)
  : result PageState :=
  match e with
  | summary_ep =>
      Ok (setSummary (data r) s)
  | sales_by_category =>
      d ← get_data (data r) ;
      Ok (setCatData (js_or d (VArr [])) s)
  | sales_by_region =>
      d ← get_data (data r) ;
      Ok (setRegData (js_or d (VArr [])) s)
  | monthly_trend =>
      d ← get_data (data r) ;
      Ok (setTrendData (js_or d (VObj [])) s)
  end.

(** [.then(h).catch(() => {})]: a rejection, and an exception thrown by
    [h], both end in the empty [catch] callback. *)
Definition settle (e : Endpoint) (o : Outcome) (s : PageState) : PageState :=
  match o with
  | Fulfilled r =>
      match on_fulfilled e r s with
      | Ok s' => s'
      | Throw => s
      end
  | Rejected => s
  end.

(** A rejected promise and a handler that throws take the same path. *)
Definition handled (e : Endpoint) (o : Outcome) (s : PageState)
  : result PageState :=
  match o with
  | Fulfilled r => on_fulfilled e r s
  | Rejected => Throw
  end.

(** The value a handler passes to its setter, when it gets that far. *)
Definition stored (e : Endpoint) (r : AxiosResponse) : result Value :=
  match e with
  | summary_ep => Ok (data r)
  | _ => d ← get_data (data r); Ok (js_or d (empty_data e))
  end.

(** ** The network and the event loop

    The source keeps no record of its requests.  The model does, to be able
    to say which request an arriving response answers: [inflight] lists the
    requests not yet settled, oldest first.  [generation] and [slot_gen] are
    bookkeeping of the model only (no code reads them): [generation] counts
    the runs of the filters effect, a request carries the count of the run
    that posted it, and [slot_gen e] is the count carried by the request
    whose response last wrote slot [e]. *)
Record Request := {
  gen : nat;
  endpoint : Endpoint;
  payload : Body.t;
}.

Record World := {
  page : PageState;
  metadata_pending : bool;
  inflight : list Request;
  generation : nat;
  slot_gen : Endpoint → option nat;
}.

(** After mount: both effects have run once, the metadata request is out and
    the filters effect has returned at its guard. *)
Definition initial_world : World :=
  {| page := initial_state; metadata_pending := true; inflight := [];
     generation := 0; slot_gen := λ _, None |}.

Definition on_page (f : PageState → PageState) (w : World) : World :=
  {| page := f (page w); metadata_pending := metadata_pending w;
     inflight := inflight w; generation := generation w;
     slot_gen := slot_gen w |}.

(** [axios.post(url, body)]: the request leaves, nothing is awaited. *)
Definition post (e : Endpoint) (b : Body.t) (w : World) : World :=
  {| page := page w; metadata_pending := metadata_pending w;
     inflight := inflight w ++ [{| gen := generation w; endpoint := e; payload := b |}];
     generation := generation w; slot_gen := slot_gen w |}.

Definition next_generation (w : World) : World :=
  {| page := page w; metadata_pending := metadata_pending w;
     inflight := inflight w; generation := S (generation w);
     slot_gen := slot_gen w |}.

(** The second [useEffect], with dependency list [[filters]]. *)
Definition filters_effect (w : World) : World :=
  let w := next_generation w in
  if Nat.eqb (length (categories (filters (page w)))) 0 then w
  else
    let w := on_page (setLoading true) w in
    let b := body (filters (page w)) in
    let w := post summary_ep b w in
    let w := post sales_by_category b w in
    let w := post sales_by_region b w in
    let w := post monthly_trend b w in
    on_page (setLoading false) w.

(** The [.then] callback of the metadata request; the response is taken to
    have the shape of [MetaData]. *)
Definition on_metadata (m : MetaData) (s : PageState) : PageState :=
  let s := setMeta m s in
  setFilters (λ _, {| categories := categories m; regions := regions m;
                      years := years m |}) s.

(** A request leaves [inflight] when it settles; its handler runs on the
    page. *)
Definition deliver (i : nat) (rq : Request) (o : Outcome) (w : World) : World :=
  match handled (endpoint rq) o (page w) with
  | Ok s' =>
      {| page := s'; metadata_pending := metadata_pending w;
         inflight := delete i (inflight w); generation := generation w;
         slot_gen := <[endpoint rq := Some (gen rq)]> (slot_gen w) |}
  | Throw =>
      {| page := page w; metadata_pending := metadata_pending w;
         inflight := delete i (inflight w); generation := generation w;
         slot_gen := slot_gen w |}
  end.

Inductive Event :=
| MetadataArrived (m : MetaData)
| MetadataFailed
| SelectAllClicked (key : Key.t)
| ItemClicked (key : Key.t) (item : Item)
| Settled (i : nat) (o : Outcome).

(** What can happen in a world: the metadata request settles once, the
    page offers a checkbox for each value of [meta] and nothing else, and
    only a request that is out can settle. *)
Definition offered (w : World) (ev : Event) : bool :=
  match ev with
  | MetadataArrived _ | MetadataFailed => metadata_pending w
  | SelectAllClicked _ => true
  | ItemClicked key item => bool_decide (item ∈ get key (meta (page w)))
  | Settled i _ => bool_decide (i < length (inflight w))%nat
  end.

(** One turn of the event loop.  A call of [setFilters] gives [filters] a
    new identity, so the filters effect runs after it. *)
Definition step (w : World) (ev : Event) : World :=
  match ev with
  | MetadataArrived m =>
      let w := {| page := on_metadata m (page w); metadata_pending := false;
                  inflight := inflight w; generation := generation w;
                  slot_gen := slot_gen w |} in
      filters_effect w
  | MetadataFailed =>
      {| page := page w; metadata_pending := false;
         inflight := inflight w; generation := generation w;
         slot_gen := slot_gen w |}
  | SelectAllClicked key =>
      filters_effect
        (on_page (λ s, setFilters (toggleSelectAll (meta s) key) s) w)
  | ItemClicked key item =>
      filters_effect (on_page (setFilters (toggleItem key item)) w)
  | Settled i o =>
      match inflight w !! i with
      | Some rq => deliver i rq o w
      | None => w
      end
  end.

(** A run of the event loop; [None] when an event is not on offer. *)
Fixpoint run (w : World) (evs : list Event) : option World :=
  match evs with
  | [] => Some w
  | ev :: evs => if offered w ev then run (step w ev) evs else None
  end.

Definition reachable (w : World) : Prop :=
  ∃ evs, run initial_world evs = Some w.

(** The page-level effect of a sequence of settlements. *)
Definition settle_all (evs : list (Endpoint * Outcome)) (s : PageState)
  : PageState :=
  foldl (λ s eo, settle eo.1 eo.2 s) s evs.

(** ** Sample data *)

Definition sample_meta : MetaData :=
  {| categories := [IStr "A"; IStr "B"];
     regions := [IStr "East"; IStr "West"];
     years := [INum 2022; INum 2023] |}.

Definition rows (label : string) : Value :=
  VArr [VObj [("Category", VStr label); ("Sales", VNum 10); ("Profit", VNum 1)]].

Definition response_with (d : Value) : AxiosResponse :=
  {| data := VObj [("data", d)] |}.

(** ** Vocabulary of the properties *)

(** Writing one slot, by endpoint: the four setters under one name. *)
Definition set_slot (e : Endpoint) (v : Value) (s : PageState) : PageState :=
  match e with
  | summary_ep => setSummary v s
  | sales_by_category => setCatData v s
  | sales_by_region => setRegData v s
  | monthly_trend => setTrendData v s
  end.

(** What slot [e] holds after its request settled with [o], given what it
    held before. *)
Definition slot_after (e : Endpoint) (o : Outcome) (old : Value) : Value :=
  match o with
  | Fulfilled r => match stored e r with Ok v => v | Throw => old end
  | Rejected => old
  end.

(** The field of a response that feeds slot [e]: the body itself for the
    summary, the body's [data] for the other three. *)
Definition expected_field (e : Endpoint) (r : AxiosResponse) : result Value :=
  match e with
  | summary_ep => Ok (data r)
  | _ => get_data (data r)
  end.

(** Whether a value has, one level deep, the shape of the type its slot is
    declared with: [SummaryData | null], [CategoryData[]], [RegionData[]],
    [TrendData] (a [Record]). *)
Definition fits_declared_type (e : Endpoint) (v : Value) : bool :=
  match e, v with
  | summary_ep, (VObj _ | VNull) => true
  | (sales_by_category | sales_by_region), VArr _ => true
  | monthly_trend, VObj _ => true
  | _, _ => false
  end.

(** The events that call [setFilters] from the user's side. *)
Definition is_filter_mutation (ev : Event) : bool :=
  match ev with
  | SelectAllClicked _ | ItemClicked _ _ => true
  | _ => false
  end.

(** The requests one passing run of the filters effect posts. *)
Definition request_group (g : nat) (b : Body.t) : list Request :=
  map (λ e, {| gen := g; endpoint := e; payload := b |})
      [summary_ep; sales_by_category; sales_by_region; monthly_trend].

(** Metadata loaded, then category A unticked, then the category response
    of the second round of requests has arrived; the category request of
    the first round (at index 1) is still out. *)
Definition world_with_stale_request : World :=
  let w := step initial_world (MetadataArrived sample_meta) in
  let w := step w (ItemClicked Key.categories (IStr "A")) in
  step w (Settled 5 (Fulfilled (response_with (rows "new")))).

(** A page that shows region rows, and a round of settlements in which the
    refresh of the regions fails first, then trend, summary and categories
    arrive. *)
Definition region_rows : Value :=
  VArr [VObj [("Region", VStr "East"); ("Sales", VNum 7)]].

Definition page_with_regions : PageState := setRegData region_rows initial_state.

Definition summary_body : Value :=
  VObj [("total_sales", VNum 100); ("total_profit", VNum 20);
        ("avg_order_value", VNum 5); ("orders", VNum 3)].

Definition round_with_region_failure : list (Endpoint * Outcome) :=
  [(sales_by_region, Rejected);
   (monthly_trend, Fulfilled (response_with (VObj [("2022", VArr [])])));
   (summary_ep, Fulfilled {| data := summary_body |});
   (sales_by_category, Fulfilled (response_with (rows "A")))].

(** The same round, except that the category request is fulfilled with the
    body [null]; and a page that shows category rows besides its region
    rows. *)
Definition round_with_null_body : list (Endpoint * Outcome) :=
  [(summary_ep, Fulfilled {| data := summary_body |});
   (sales_by_category, Fulfilled {| data := VNull |});
   (sales_by_region, Rejected);
   (monthly_trend, Fulfilled (response_with (VObj [("2022", VArr [])])))].

Definition page_with_rows : PageState :=
  setCatData (rows "old") page_with_regions.

(** A page that shows a trend, and a trend response without [data]. *)
Definition page_with_trend : PageState :=
  setTrendData (VObj [("2022", VArr [])]) initial_state.

Definition response_without_data : AxiosResponse :=
  {| data := VObj [("detail", VStr "no rows")] |}.

(** Two worlds in which [setFilters] has just been called and the filters
    effect is about to run: the metadata has arrived and everything is
    selected; and, after that, "Unselect all" was clicked on the
    categories. *)
Definition world_all_selected : World :=
  on_page (on_metadata sample_meta) initial_world.

Definition world_no_category : World :=
  on_page (setFilters (toggleSelectAll sample_meta Key.categories))
    (step initial_world (MetadataArrived sample_meta)).

(** ** What the page renders from its state *)

(** The text of the button of one dimension:
    [filters[filterKey].length === meta[filterKey].length ? ... : ...]. *)
Definition select_all_label (key : Key.t) (s : PageState) : string :=
  if Nat.eqb (length (get key (filters s))) (length (get key (meta s)))
  then "Unselect all" else "Select all".

(** The [checked] attribute of the checkbox of [val]:
    [filters[filterKey].includes(val)]. *)
Definition checked (key : Key.t) (val : Item) (s : PageState) : bool :=
  bool_decide (val ∈ get key (filters s)).

(** The checkboxes of one dimension: one for each element of
    [meta[filterKey]], in that order, with its [checked] attribute. *)
Definition checkboxes (key : Key.t) (s : PageState) : list (Item * bool) :=
  map (λ val, (val, checked key val s)) (get key (meta s)).

(** [undefined] and [null], on which a property access throws. *)
Definition nullish (v : Value) : bool :=
  match v with
  | VUndefined | VNull => true
  | _ => false
  end.

(** [v.name], for a name that no primitive and no array has as a property
    (the charts read [Category], [Region] and [Sales]). *)
Definition get_field (name : string) (v : Value) : result Value :=
  match v with
  | VUndefined | VNull => Throw
  | VObj fields => Ok (lookup_field name fields)
  | VBool _ | VNum _ | VStr _ | VArr _ => Ok VUndefined
  end.

(** The callback runs on the elements from left to right; an exception in
    it ends the [map]. *)
Fixpoint map_result {A B : Type} (f : A → result B) (l : list A)
  : result (list B) :=
  match l with
  | [] => Ok []
  | x :: l => y ← f x; ys ← map_result f l; Ok (y :: ys)
  end.

(** [rows.map((d) => d.name)]: only an array has a [map] to call. *)
Definition column (name : string) (rows : Value) : result (list Value) :=
  match rows with
  | VArr elems => map_result (get_field name) elems
  | _ => Throw
  end.

(** The two coordinate arrays of a trace handed to [Plot]. *)
Definition chart (xname yname : string) (rows : Value)
  : result (list Value * list Value) :=
  xs ← column xname rows; ys ← column yname rows; Ok (xs, ys).

(** [x] and [y] of the bar chart of the categories. *)
Definition category_chart (s : PageState) : result (list Value * list Value) :=
  chart "Category" "Sales" (catData s).

(** [labels] and [values] of the pie chart of the regions. *)
Definition region_chart (s : PageState) : result (list Value * list Value) :=
  chart "Region" "Sales" (regData s).

(** *** Whether a render throws

    What follows keeps, of a render of [Page], whether it throws.  The
    sidebar reads [meta] and [filters] only and does not throw; [Plot] and
    the [motion] components are taken not to throw on the props they get.
    An error thrown while rendering is caught nowhere in the component: it
    unmounts the page. *)

Definition succeeds {A : Type} (m : result A) : bool :=
  match m with Ok _ => true | Throw => false end.

(** Whether an object has an own property of that name. *)
Definition has_own (name : string) (fields : list (string * Value)) : bool :=
  existsb (λ kv, String.eqb kv.1 name) fields.

(** Whether a value converts to a primitive.  An object converts through
    the [toString] it inherits; an own property of that name, which no
    parsed value makes callable, leaves it no way and the conversion throws
    a TypeError.  An array converts through [join], which converts the
    elements other than [null] and [undefined]. *)
Fixpoint converts (v : Value) : bool :=
  match v with
  | VObj fields => negb (has_own "toString" fields)
  | VArr elems => forallb converts elems
  | _ => true
  end.

(** [Math.round(v).toLocaleString()], as far as it throws. *)
Definition Math_round (v : Value) : result unit :=
  if converts v then Ok () else Throw.

(** [v.toFixed(2)], as far as it throws: only a number has the method. *)
Definition toFixed (v : Value) : result unit :=
  match v with
  | VNum _ => Ok ()
  | _ => Throw
  end.

(** Whether React takes a value as a child: text, numbers, booleans,
    [null], [undefined] and arrays of such; an object that is not an
    element is refused with an error. *)
Fixpoint valid_child (v : Value) : bool :=
  match v with
  | VObj _ => false
  | VArr elems => forallb valid_child elems
  | _ => true
  end.

(** [{summary && (...)}] with its four cards. *)
Definition summary_cards (summary : Value) : result unit :=
  if truthy summary then
    total_sales ← get_field "total_sales" summary;
    _ ← Math_round total_sales;
    avg_order_value ← get_field "avg_order_value" summary;
    _ ← toFixed avg_order_value;
    orders ← get_field "orders" summary;
    _ ← (if valid_child orders then Ok () else Throw);
    total_profit ← get_field "total_profit" summary;
    Math_round total_profit
  else Ok ().

(** [Object.keys(v).map((year) => v[year])]: the values of the own
    enumerable properties, in the order of enumeration (for an object, the
    order of its list of properties).  A string has one per character, a
    number or a boolean none, and [Object.keys] throws on [null] and
    [undefined]. *)
Definition own_values (v : Value) : result (list Value) :=
  match v with
  | VUndefined | VNull => Throw
  | VBool _ | VNum _ => Ok []
  | VStr s => Ok (map (λ a, VStr (String a EmptyString))
                   (String.list_ascii_of_string s))
  | VArr elems => Ok elems
  | VObj fields => Ok (map (λ kv, lookup_field kv.1 fields) fields)
  end.

(** [x] and [y] of each trace of the trend chart. *)
Definition trend_chart (s : PageState)
  : result (list (list Value * list Value)) :=
  series ← own_values (trendData s);
  map_result (chart "Month" "Sales") series.

(** One render of the page. *)
Definition render (s : PageState) : result unit :=
  _ ← summary_cards (summary s);
  _ ← category_chart s;
  _ ← region_chart s;
  _ ← trend_chart s;
  Ok ().

(** Whether the part of the page that shows slot [e] renders when the slot
    holds [v]. *)
Definition slot_renders (e : Endpoint) (v : Value) : bool :=
  succeeds (render (set_slot e v initial_state)).

(** The component, as long as it is mounted, with its state. *)
Inductive Mount :=
| Mounted (s : PageState)
| Unmounted.

(** A settlement on the page: a handler that reaches its setter makes the
    page render again, and a render that throws unmounts it; on an
    unmounted page a setter does nothing. *)
Definition settle_mounted (e : Endpoint) (o : Outcome) (m : Mount) : Mount :=
  match m with
  | Mounted s =>
      match handled e o s with
      | Ok s' => if succeeds (render s') then Mounted s' else Unmounted
      | Throw => Mounted s
      end
  | Unmounted => Unmounted
  end.

Definition settle_all_mounted (order : list (Endpoint * Outcome)) (m : Mount)
  : Mount :=
  foldl (λ m eo, settle_mounted eo.1 eo.2 m) m order.

(** ** Invariants of the event loop *)

(** Every selected value is a value of the metadata, and a selection is
    free of duplicates unless it is the metadata array itself. *)
Definition selection_within_metadata (s : PageState) : Prop :=
  ∀ key,
    (∀ x, x ∈ get key (filters s) → x ∈ get key (meta s))
    ∧ (NoDup (get key (filters s)) ∨ get key (filters s) = get key (meta s)).

(** While no category is known, none is selected and nothing is out. *)
Definition quiet_without_categories (w : World) : Prop :=
  (metadata_pending w = true → categories (meta (page w)) = [])
  ∧ (categories (meta (page w)) = [] →
     categories (filters (page w)) = [] ∧ inflight w = []).

(** A body as the filters effect builds it when it passes its guard. *)
Definition names_categories (b : Body.t) : Prop :=
  (∃ c cs, Body.categories b = Some (c :: cs))
  ∧ ∀ key, Body.get key b ≠ Some [].

(** A world reached through the page: metadata loaded, category A unticked. *)
Definition world_after_untick : World :=
  step (step initial_world (MetadataArrived sample_meta))
       (ItemClicked Key.categories (IStr "A")).

(** A body that lists, in each dimension it restricts, values of the
    metadata [m] only, and none twice unless the list is the metadata array
    itself. *)
Definition lists_metadata_values (m : MetaData) (b : Body.t) : Prop :=
  ∀ key l,
    Body.get key b = Some l →
    (∀ x, x ∈ l → x ∈ get key m) ∧ (NoDup l ∨ l = get key m).

Definition requests_within_metadata (w : World) : Prop :=
  Forall (λ rq, lists_metadata_values (meta (page w)) (payload rq))
         (inflight w).

(** * Properties *)

(** ** The [Set] model *)

Section js_set_facts.
Context {A : Type} `{EqDecision A}.
Implicit Types (s l : list A) (x y : A).

Lemma JsSet_has_true s x : JsSet.has s x = true ↔ x ∈ s.
Proof. unfold JsSet.has. apply bool_decide_eq_true. Qed.

Lemma JsSet_has_false s x : JsSet.has s x = false ↔ x ∉ s.
Proof. unfold JsSet.has. apply bool_decide_eq_false. Qed.

Lemma JsSet_elem_of_add s y x : x ∈ JsSet.add s y ↔ x ∈ s ∨ x = y.
Proof.
  unfold JsSet.add. destruct (JsSet.has s y) eqn:Hy.
  - apply JsSet_has_true in Hy. split; [by left|]. by intros [?| ->].
  - rewrite elem_of_app, list_elem_of_singleton. tauto.
Qed.

Lemma JsSet_elem_of_delete s y x : x ∈ JsSet.delete s y ↔ x ∈ s ∧ x ≠ y.
Proof. unfold JsSet.delete. rewrite list_elem_of_filter. tauto. Qed.

Lemma JsSet_NoDup_add s y : NoDup s → NoDup (JsSet.add s y).
Proof.
  intros Hs. unfold JsSet.add. destruct (JsSet.has s y) eqn:Hy; [done|].
  apply JsSet_has_false in Hy. apply list.NoDup_app. split_and!; [done| |].
  - intros x Hx ->%list_elem_of_singleton. contradiction.
  - apply NoDup_singleton.
Qed.

Lemma JsSet_NoDup_delete s y : NoDup s → NoDup (JsSet.delete s y).
Proof. intros Hs. unfold JsSet.delete. by apply list.NoDup_filter. Qed.

(** The constructor is a left fold: its facts come from the fold started at
    any set. *)
Lemma JsSet_elem_of_fold l : ∀ s x, x ∈ foldl JsSet.add s l ↔ x ∈ s ∨ x ∈ l.
Proof.
  induction l as [|y l IH]; intros s x; simpl.
  - rewrite elem_of_nil. tauto.
  - rewrite IH, JsSet_elem_of_add, elem_of_cons. tauto.
Qed.

Lemma JsSet_NoDup_fold l : ∀ s, NoDup s → NoDup (foldl JsSet.add s l).
Proof.
  induction l as [|y l IH]; intros s Hs; simpl; [done|].
  apply IH. by apply JsSet_NoDup_add.
Qed.

Lemma JsSet_elem_of_new l x : x ∈ JsSet.new l ↔ x ∈ l.
Proof.
  unfold JsSet.new. rewrite JsSet_elem_of_fold, elem_of_nil. tauto.
Qed.

Lemma JsSet_NoDup_new l : NoDup (JsSet.new l).
Proof. apply JsSet_NoDup_fold, NoDup_nil_2. Qed.

End js_set_facts.

(** ** Reading and writing one field *)

Lemma get_put key v f : get key (put key v f) = v.
Proof. by destruct key. Qed.

Lemma get_put_ne key key' v f : key' ≠ key → get key' (put key v f) = get key' f.
Proof. by destruct key, key'. Qed.

Lemma put_get key f : put key (get key f) f = f.
Proof. by destruct key, f. Qed.

Lemma put_put key v v' f : put key v (put key v' f) = put key v f.
Proof. by destruct key. Qed.

Lemma put_eq_inv key v f : put key v f = f → v = get key f.
Proof. intros H. by rewrite <-H, get_put. Qed.

(** ** [toggleItem] *)

Lemma toggleItem_elem_of key item prev x :
  x ∈ get key (toggleItem key item prev) ↔
  (x ∈ get key prev ∧ x ≠ item) ∨ (x = item ∧ item ∉ get key prev).
Proof.
  unfold toggleItem, JsSet.to_array. rewrite get_put.
  destruct (JsSet.has (JsSet.new (get key prev)) item) eqn:Hhas.
  - apply JsSet_has_true in Hhas. rewrite JsSet_elem_of_new in Hhas.
    rewrite JsSet_elem_of_delete, JsSet_elem_of_new. tauto.
  - apply JsSet_has_false in Hhas. rewrite JsSet_elem_of_new in Hhas.
    rewrite JsSet_elem_of_add, JsSet_elem_of_new.
    split; [|tauto]. intros [Hx| ->]; [|tauto].
    left. split; [done|]. by intros ->.
Qed.

Lemma toggleItem_NoDup key item prev :
  NoDup (get key (toggleItem key item prev)).
Proof.
  unfold toggleItem, JsSet.to_array. rewrite get_put.
  destruct (JsSet.has _ item).
  - apply JsSet_NoDup_delete, JsSet_NoDup_new.
  - apply JsSet_NoDup_add, JsSet_NoDup_new.
Qed.

Lemma toggleItem_other key item prev key' :
  key' ≠ key → get key' (toggleItem key item prev) = get key' prev.
Proof. intros. unfold toggleItem. by rewrite get_put_ne. Qed.

Lemma toggleItem_selection_set key item prev :
  selection_set key (toggleItem key item prev)
  = (selection_set key prev ∖ {[item]}) ∪ ({[item]} ∖ selection_set key prev).
Proof.
  unfold selection_set. apply set_eq. intros x.
  rewrite elem_of_list_to_set, toggleItem_elem_of.
  rewrite elem_of_union, !elem_of_difference, elem_of_singleton,
    elem_of_list_to_set.
  split; intros [[? ?]|[? ?]]; subst; tauto.
Qed.

(** C5, as stated, fails: a value that is not among the metadata values of
    its dimension is toggled like any other.  With no metadata loaded and
    nothing selected, [toggleItem("categories", "X")] selects ["X"]. *)
Lemma toggleItem_ignores_metadata :
  ¬ (∀ (s : PageState) (key : Key.t) (item : Item),
       item ∉ get key (meta s) →
       selection_set key (filters (setFilters (toggleItem key item) s))
       = selection_set key (filters s)).
Proof.
  intros H.
  specialize (H initial_state Key.categories (IStr "X")).
  assert (IStr "X" ∈ selection_set Key.categories (filters initial_state))
    as Hin.
  { rewrite <-H by apply not_elem_of_nil.
    unfold selection_set. apply elem_of_list_to_set.
    vm_compute. apply list_elem_of_here. }
  unfold selection_set in Hin. apply elem_of_list_to_set in Hin.
  by apply not_elem_of_nil in Hin.
Qed.

(** C5, amended: [toggleItem(d, v)] replaces the selection of [d] by its
    symmetric difference with [{v}], whatever [meta] holds: the updater does
    not read it.  The new array has no duplicates, the other dimensions and
    the metadata are as before. *)
Theorem toggleItem_symmetric_difference (s : PageState) (key : Key.t) (item : Item) :
  let s' := setFilters (toggleItem key item) s in
  selection_set key (filters s')
  = (selection_set key (filters s) ∖ {[item]})
    ∪ ({[item]} ∖ selection_set key (filters s))
  ∧ NoDup (get key (filters s'))
  ∧ (∀ key', key' ≠ key → get key' (filters s') = get key' (filters s))
  ∧ meta s' = meta s.
Proof.
  simpl. split_and!.
  - apply toggleItem_selection_set.
  - apply toggleItem_NoDup.
  - intros key' Hne. by apply toggleItem_other.
  - done.
Qed.

(** C7: two [toggleItem(d, v)] in a row leave every dimension with the set
    of values it had.  (The array of [d] may come back in another order, and
    without the duplicates it had.) *)
Theorem toggleItem_twice (key : Key.t) (item : Item) (prev : MetaData) (key' : Key.t) :
  selection_set key' (toggleItem key item (toggleItem key item prev))
  = selection_set key' prev.
Proof.
  destruct (decide (key' = key)) as [->|Hne].
  - rewrite !toggleItem_selection_set.
    apply set_eq. intros x.
    rewrite !elem_of_union, !elem_of_difference, !elem_of_union,
      !elem_of_difference, !elem_of_singleton.
    destruct (decide (x = item)) as [->|?];
      destruct (decide (item ∈ selection_set key prev));
      intuition congruence.
  - unfold selection_set. by rewrite !toggleItem_other.
Qed.

(** The array itself need not come back: unticking and ticking A moves it
    behind B. *)
Example toggleItem_twice_reorders :
  get Key.categories
    (toggleItem Key.categories (IStr "A")
       (toggleItem Key.categories (IStr "A") sample_meta))
  = [IStr "B"; IStr "A"].
Proof. reflexivity. Qed.

(** ** [toggleSelectAll] *)

Lemma put_eq_iff key v f : put key v f = f ↔ v = get key f.
Proof.
  split; [apply put_eq_inv|]. intros ->. apply put_get.
Qed.

(** C6, as stated, fails: from a partial selection the first call selects
    everything and the second clears.  With categories A and B and only B
    selected, two calls leave no category selected. *)
Lemma toggleSelectAll_twice_drops_partial_selection :
  ¬ (∀ (meta prev : MetaData) (key : Key.t),
       selection_set key (toggleSelectAll meta key (toggleSelectAll meta key prev))
       = selection_set key prev).
Proof.
  intros H.
  specialize (H sample_meta
                (toggleItem Key.categories (IStr "A") sample_meta)
                Key.categories).
  unfold selection_set in H.
  assert (IStr "B" ∈ get Key.categories
            (toggleItem Key.categories (IStr "A") sample_meta)) as Hin.
  { vm_compute. apply list_elem_of_here. }
  apply (elem_of_list_to_set (C:=gset Item)) in Hin.
  rewrite <-H in Hin. apply elem_of_list_to_set in Hin.
  vm_compute in Hin. by apply not_elem_of_nil in Hin.
Qed.

Lemma toggleSelectAll_twice_get meta prev key :
  get key (toggleSelectAll meta key (toggleSelectAll meta key prev))
  = if Nat.eqb (length (get key prev)) (length (get key meta))
    then get key meta else [].
Proof.
  unfold toggleSelectAll. rewrite !get_put.
  destruct (Nat.eqb (length (get key prev)) (length (get key meta))) eqn:Hlen.
  - destruct (get key meta); [done|]. by simpl.
  - by rewrite Nat.eqb_refl.
Qed.

(** C6, amended: two [toggleSelectAll(d)] in a row, under the same
    metadata, give back the filters they started from exactly when the
    selection of [d] was empty or was the array [meta[d]].  In general they
    end with [meta[d]] when the selection was as long as [meta[d]], and
    with nothing selected otherwise. *)
Theorem toggleSelectAll_twice_iff (meta prev : MetaData) (key : Key.t) :
  (toggleSelectAll meta key (toggleSelectAll meta key prev) = prev
   ↔ get key prev = [] ∨ get key prev = get key meta)
  ∧ get key (toggleSelectAll meta key (toggleSelectAll meta key prev))
    = (if Nat.eqb (length (get key prev)) (length (get key meta))
       then get key meta else []).
Proof.
  split; [|apply toggleSelectAll_twice_get].
  unfold toggleSelectAll. rewrite get_put, put_put, put_eq_iff.
  destruct (Nat.eqb (length (get key prev)) (length (get key meta))) eqn:Hlen.
  - apply Nat.eqb_eq in Hlen.
    destruct (get key meta) as [|m ms] eqn:Hm; simpl in *.
    + apply nil_length_inv in Hlen. rewrite Hlen. tauto.
    + split; [intros <-; by right|].
      intros [Hnil|Heq]; [|done]. by rewrite Hnil in Hlen.
  - apply Nat.eqb_neq in Hlen. rewrite Nat.eqb_refl.
    split; [intros <-; by left|].
    intros [Hnil|Heq]; [done|]. by rewrite Heq in Hlen.
Qed.

(** C10: [toggleSelectAll(d)] compares lengths only.  When the selection of
    [d] is as long as [meta[d]] it becomes empty, whatever its members;
    when the lengths differ it becomes [meta[d]].  The other dimensions are
    as before. *)
Theorem toggleSelectAll_tests_cardinality (meta prev : MetaData) (key : Key.t) :
  (length (get key prev) = length (get key meta) →
   get key (toggleSelectAll meta key prev) = [])
  ∧ (length (get key prev) ≠ length (get key meta) →
     get key (toggleSelectAll meta key prev) = get key meta)
  ∧ (∀ key', key' ≠ key →
     get key' (toggleSelectAll meta key prev) = get key' prev).
Proof.
  unfold toggleSelectAll. split_and!.
  - intros Hlen%Nat.eqb_eq. by rewrite get_put, Hlen.
  - intros Hlen%Nat.eqb_neq. by rewrite get_put, Hlen.
  - intros key' Hne. by rewrite get_put_ne.
Qed.

(** A selection of two values that are not categories at all is cleared,
    and a selection of one region out of two is replaced by both. *)
Lemma toggleSelectAll_tests_cardinality_witness :
  get Key.categories
    (toggleSelectAll sample_meta Key.categories
       (put Key.categories [IStr "X"; IStr "Y"] sample_meta)) = []
  ∧ get Key.regions
      (toggleSelectAll sample_meta Key.regions
         (put Key.regions [IStr "East"] sample_meta))
    = [IStr "East"; IStr "West"].
Proof.
  split.
  - apply (toggleSelectAll_tests_cardinality sample_meta
             (put Key.categories [IStr "X"; IStr "Y"] sample_meta)
             Key.categories).
    reflexivity.
  - apply (toggleSelectAll_tests_cardinality sample_meta
             (put Key.regions [IStr "East"] sample_meta) Key.regions).
    simpl. lia.
Defined.

(** ** The request body *)

(** C4, as stated, fails: with every value selected the body carries the
    list of all of them, not [null]. *)
Lemma body_of_full_selection_is_explicit :
  ¬ (∀ (meta f_empty f_full : MetaData) (key : Key.t),
       get key f_empty = [] →
       get key f_full = get key meta →
       Body.get key (body f_full) = Body.get key (body f_empty)).
Proof.
  intros H.
  specialize (H sample_meta no_values sample_meta Key.categories eq_refl eq_refl).
  vm_compute in H. discriminate.
Qed.

Lemma or_null_nil : or_null [] = None.
Proof. done. Qed.

Lemma or_null_cons x xs : or_null (x :: xs) = Some (x :: xs).
Proof. done. Qed.

Lemma body_get key f : Body.get key (body f) = or_null (get key f).
Proof. by destruct key. Qed.

(** C4, amended: for every dimension, an empty selection is sent as [null]
    and a non-empty one, the full one included, as the list of the selected
    values; so an empty and a full selection are sent alike only when the
    dimension has no metadata values. *)
Theorem body_null_iff_empty (f : MetaData) (key : Key.t) :
  (get key f = [] → Body.get key (body f) = None)
  ∧ (get key f ≠ [] → Body.get key (body f) = Some (get key f)).
Proof.
  rewrite body_get. split.
  - intros ->. apply or_null_nil.
  - intros Hne. destruct (get key f); [done|]. apply or_null_cons.
Qed.

Lemma body_null_iff_empty_witness :
  Body.get Key.years (body (put Key.years [] sample_meta)) = None
  ∧ Body.get Key.years (body sample_meta) = Some [INum 2022; INum 2023].
Proof.
  split.
  - apply (body_null_iff_empty (put Key.years [] sample_meta) Key.years).
    reflexivity.
  - apply (body_null_iff_empty sample_meta Key.years). simpl. discriminate.
Defined.

(** ** Response handlers *)

Lemma slot_set_slot e v s : slot e (set_slot e v s) = v.
Proof. by destruct e. Qed.

Lemma slot_set_slot_ne e e' v s : e' ≠ e → slot e' (set_slot e v s) = slot e' s.
Proof. by destruct e, e'. Qed.

Lemma on_fulfilled_stored e r s :
  on_fulfilled e r s = (v ← stored e r; Ok (set_slot e v s)).
Proof. destruct e; simpl; try done; by destruct (get_data (data r)). Qed.

Lemma settle_stored e r v s :
  stored e r = Ok v → settle e (Fulfilled r) s = set_slot e v s.
Proof. intros Hv. unfold settle. by rewrite on_fulfilled_stored, Hv. Qed.

Lemma settle_thrown e r s :
  stored e r = Throw → settle e (Fulfilled r) s = s.
Proof. intros Hv. unfold settle. by rewrite on_fulfilled_stored, Hv. Qed.

Lemma settle_rejected e s : settle e Rejected s = s.
Proof. done. Qed.

Lemma slot_settle e o s : slot e (settle e o s) = slot_after e o (slot e s).
Proof.
  destruct o as [r|]; [|done]. unfold slot_after.
  destruct (stored e r) as [v|] eqn:Hv.
  - by rewrite (settle_stored _ _ _ _ Hv), slot_set_slot.
  - by rewrite (settle_thrown _ _ _ Hv).
Qed.

Lemma slot_settle_ne e e' o s : e' ≠ e → slot e' (settle e o s) = slot e' s.
Proof.
  intros Hne. destruct o as [r|]; [|done].
  destruct (stored e r) as [v|] eqn:Hv.
  - by rewrite (settle_stored _ _ _ _ Hv), slot_set_slot_ne.
  - by rewrite (settle_thrown _ _ _ Hv).
Qed.

Lemma settle_all_cons e o order s :
  settle_all ((e, o) :: order) s = settle_all order (settle e o s).
Proof. done. Qed.

(** A slot none of the settlements is for keeps its value. *)
Lemma settle_all_untouched e order :
  ∀ s, e ∉ order.*1 → slot e (settle_all order s) = slot e s.
Proof.
  induction order as [|[e1 o1] order IH]; intros s Hnin; [done|].
  rewrite fmap_cons, not_elem_of_cons in Hnin. destruct Hnin as [Hne Hnin].
  rewrite settle_all_cons, IH by done. by apply slot_settle_ne.
Qed.

(** When each endpoint settles at most once, a slot ends up as its own
    settlement leaves it, wherever in the order that settlement comes. *)
Lemma settle_all_slot e o order :
  ∀ s, NoDup order.*1 → (e, o) ∈ order →
       slot e (settle_all order s) = slot_after e o (slot e s).
Proof.
  induction order as [|[e1 o1] order IH]; intros s Hnd Hin.
  - by apply elem_of_nil in Hin.
  - rewrite fmap_cons in Hnd. apply list.NoDup_cons in Hnd as [Hfresh Hnd].
    rewrite settle_all_cons.
    apply elem_of_cons in Hin as [Heq|Hin].
    + injection Heq as <- <-.
      rewrite settle_all_untouched by done. apply slot_settle.
    + assert (e ≠ e1) as Hne.
      { intros ->. apply Hfresh. apply list_elem_of_fmap. by exists (e1, o). }
      rewrite IH by done. by rewrite slot_settle_ne.
Qed.

Lemma endpoints_NoDup :
  NoDup [summary_ep; sales_by_category; sales_by_region; monthly_trend].
Proof. apply (bool_decide_unpack _). by vm_compute. Qed.

(** The slots after such a round, as the handlers alone leave them. *)
Lemma settle_all_region_failure
    (s : PageState) (r_sum r_cat r_trend : AxiosResponse)
    (v_cat v_trend : Value) (order : list (Endpoint * Outcome)) :
  stored sales_by_category r_cat = Ok v_cat →
  stored monthly_trend r_trend = Ok v_trend →
  order ≡ₚ [(summary_ep, Fulfilled r_sum);
            (sales_by_category, Fulfilled r_cat);
            (sales_by_region, Rejected);
            (monthly_trend, Fulfilled r_trend)] →
  regData (settle_all order s) = regData s
  ∧ summary (settle_all order s) = data r_sum
  ∧ catData (settle_all order s) = v_cat
  ∧ trendData (settle_all order s) = v_trend.
Proof.
  intros Hcat Htrend Hperm.
  assert (NoDup order.*1) as Hnd.
  { rewrite Hperm. apply endpoints_NoDup. }
  assert (∀ e o, (e, o) ∈ [(summary_ep, Fulfilled r_sum);
                           (sales_by_category, Fulfilled r_cat);
                           (sales_by_region, Rejected);
                           (monthly_trend, Fulfilled r_trend)] →
                 slot e (settle_all order s) = slot_after e o (slot e s))
    as Hslot.
  { intros e o Hin. apply settle_all_slot; [done|]. by rewrite Hperm. }
  split_and!.
  - apply (Hslot sales_by_region Rejected).
    do 2 apply list_elem_of_further. apply list_elem_of_here.
  - apply (Hslot summary_ep (Fulfilled r_sum)). apply list_elem_of_here.
  - change (slot sales_by_category (settle_all order s) = v_cat).
    rewrite (Hslot sales_by_category (Fulfilled r_cat)).
    + unfold slot_after. by rewrite Hcat.
    + apply list_elem_of_further, list_elem_of_here.
  - change (slot monthly_trend (settle_all order s) = v_trend).
    rewrite (Hslot monthly_trend (Fulfilled r_trend)).
    + unfold slot_after. by rewrite Htrend.
    + do 3 apply list_elem_of_further. apply list_elem_of_here.
Qed.

(** *** Renders between the settlements *)

Lemma slot_renders_summary v :
  slot_renders summary_ep v = succeeds (summary_cards v).
Proof.
  unfold slot_renders, render. simpl.
  by destruct (summary_cards v) as [[]|].
Qed.

Lemma slot_renders_category v :
  slot_renders sales_by_category v = succeeds (chart "Category" "Sales" v).
Proof.
  unfold slot_renders, render, category_chart. simpl.
  by destruct (chart "Category" "Sales" v).
Qed.

Lemma slot_renders_region v :
  slot_renders sales_by_region v = succeeds (chart "Region" "Sales" v).
Proof.
  unfold slot_renders, render, region_chart. simpl.
  by destruct (chart "Region" "Sales" v).
Qed.

Lemma slot_renders_trend v s :
  trendData s = v → slot_renders monthly_trend v = succeeds (trend_chart s).
Proof.
  intros <-. unfold slot_renders, render, trend_chart. simpl.
  by destruct (_ ← own_values (trendData s); map_result _ _).
Qed.

(** The four parts of a render read one slot each: the page renders
    exactly when each slot's part does. *)
Lemma render_by_slot s :
  render s = Ok () ↔ ∀ e, slot_renders e (slot e s) = true.
Proof.
  split.
  - intros Hrender e. unfold render in Hrender.
    destruct (summary_cards (summary s)) as [[]|] eqn:Hsum; [|done].
    destruct (category_chart s) as [cat|] eqn:Hcat; [|done].
    destruct (region_chart s) as [reg|] eqn:Hreg; [|done].
    destruct (trend_chart s) as [trend|] eqn:Htrend; [|done].
    destruct e; simpl.
    + by rewrite slot_renders_summary, Hsum.
    + rewrite slot_renders_category. fold (category_chart s). by rewrite Hcat.
    + rewrite slot_renders_region. fold (region_chart s). by rewrite Hreg.
    + by rewrite (slot_renders_trend _ s eq_refl), Htrend.
  - intros Hall.
    pose proof (Hall summary_ep) as Hsum.
    pose proof (Hall sales_by_category) as Hcat.
    pose proof (Hall sales_by_region) as Hreg.
    pose proof (Hall monthly_trend) as Htrend.
    simpl in Hsum, Hcat, Hreg, Htrend.
    rewrite slot_renders_summary in Hsum.
    rewrite slot_renders_category in Hcat.
    rewrite slot_renders_region in Hreg.
    rewrite (slot_renders_trend _ s eq_refl) in Htrend.
    unfold render, category_chart, region_chart.
    destruct (summary_cards (summary s)) as [[]|]; [|done].
    destruct (chart "Category" "Sales" (catData s)); [|done].
    destruct (chart "Region" "Sales" (regData s)); [|done].
    by destruct (trend_chart s).
Qed.

Lemma settle_handled e o s :
  settle e o s = match handled e o s with Ok s' => s' | Throw => s end.
Proof. by destruct o. Qed.

Lemma settle_mounted_renders e o s :
  render (settle e o s) = Ok () →
  settle_mounted e o (Mounted s) = Mounted (settle e o s).
Proof.
  unfold settle_mounted. rewrite settle_handled.
  destruct (handled e o s) as [s'|]; [|done]. by intros ->.
Qed.

Lemma settle_all_mounted_cons e o order m :
  settle_all_mounted ((e, o) :: order) m
  = settle_all_mounted order (settle_mounted e o m).
Proof. done. Qed.

(** As long as every state on the way renders, the page stays mounted and
    its state is what the handlers make of it. *)
Lemma settle_all_mounted_renders order :
  ∀ s,
    render s = Ok () →
    Forall (λ eo, ∀ old, slot_renders eo.1 old = true →
                         slot_renders eo.1 (slot_after eo.1 eo.2 old) = true)
           order →
    settle_all_mounted order (Mounted s) = Mounted (settle_all order s).
Proof.
  induction order as [|[e o] order IH]; intros s Hs Hall; [done|].
  apply list.Forall_cons in Hall as [Hhead Hall]. simpl in Hhead.
  assert (render (settle e o s) = Ok ()) as Hs'.
  { apply render_by_slot. intros e'.
    destruct (decide (e' = e)) as [->|Hne].
    - rewrite slot_settle. apply Hhead. by apply render_by_slot.
    - rewrite slot_settle_ne by done. by apply render_by_slot. }
  rewrite settle_all_mounted_cons, (settle_mounted_renders _ _ _ Hs').
  rewrite settle_all_cons. by apply IH.
Qed.

(** C8, as stated, fails: a request that is fulfilled with the body [null]
    leaves its slot as it was, like the request that failed.  The region
    request is rejected and the other three are fulfilled, the category one
    with [null]: [r.data.data] throws in the handler, the empty [catch]
    takes it, and the category slot holds no value computed from its
    response. *)
Lemma null_body_keeps_slot_like_a_failure :
  ¬ (∀ (s : PageState) (r_sum r_cat r_trend : AxiosResponse)
       (order : list (Endpoint * Outcome)),
       render s = Ok () →
       order ≡ₚ [(summary_ep, Fulfilled r_sum);
                 (sales_by_category, Fulfilled r_cat);
                 (sales_by_region, Rejected);
                 (monthly_trend, Fulfilled r_trend)] →
       ∃ s', settle_all_mounted order (Mounted s) = Mounted s'
             ∧ regData s' = regData s
             ∧ Ok (summary s') = stored summary_ep r_sum
             ∧ Ok (catData s') = stored sales_by_category r_cat
             ∧ Ok (trendData s') = stored monthly_trend r_trend).
Proof.
  intros H.
  destruct (H page_with_rows {| data := summary_body |} {| data := VNull |}
              (response_with (VObj [("2022", VArr [])]))
              round_with_null_body)
    as (s' & _ & _ & _ & Hcat & _); [done..|].
  discriminate.
Qed.

(** What that round leaves on the page: the old category rows beside the
    old region rows. *)
Example null_body_round :
  ∃ s', settle_all_mounted round_with_null_body (Mounted page_with_rows)
        = Mounted s'
        ∧ catData s' = rows "old"
        ∧ regData s' = region_rows
        ∧ summary s' = summary_body.
Proof. eexists. split; [reflexivity|]. by split_and!. Qed.

(** A summary that the cards cannot show unmounts the page, and what
    arrives afterwards is written nowhere. *)
Example unrenderable_summary_unmounts :
  settle_all_mounted
    [(summary_ep, Fulfilled {| data := VObj [("orders", VNum 3)] |});
     (sales_by_category, Fulfilled (response_with (rows "A")))]
    (Mounted page_with_regions)
  = Unmounted.
Proof. reflexivity. Qed.

(** C8, amended: the page is showing its state; the region request of a
    round is rejected; its three siblings are fulfilled, their handlers
    reach their setters (the bodies of the category and trend responses are
    not [null]) and the page can render what they store.  In whatever order
    the four settle, the page stays mounted, the region slot holds what it
    held before and the other three hold what their handlers computed from
    the responses. *)
Theorem region_failure_is_isolated
    (s : PageState) (r_sum r_cat r_trend : AxiosResponse)
    (v_cat v_trend : Value) (order : list (Endpoint * Outcome)) :
  render s = Ok () →
  stored sales_by_category r_cat = Ok v_cat →
  stored monthly_trend r_trend = Ok v_trend →
  slot_renders summary_ep (data r_sum) = true →
  slot_renders sales_by_category v_cat = true →
  slot_renders monthly_trend v_trend = true →
  order ≡ₚ [(summary_ep, Fulfilled r_sum);
            (sales_by_category, Fulfilled r_cat);
            (sales_by_region, Rejected);
            (monthly_trend, Fulfilled r_trend)] →
  ∃ s', settle_all_mounted order (Mounted s) = Mounted s'
        ∧ regData s' = regData s
        ∧ summary s' = data r_sum
        ∧ catData s' = v_cat
        ∧ trendData s' = v_trend.
Proof.
  intros Hs Hcat Htrend Hrsum Hrcat Hrtrend Hperm.
  exists (settle_all order s). split.
  - apply settle_all_mounted_renders; [done|].
    rewrite Hperm.
    repeat apply List.Forall_cons; [| | | |apply List.Forall_nil];
      intros old Hold; cbn [fst snd]; unfold slot_after.
    + done.
    + by rewrite Hcat.
    + done.
    + by rewrite Htrend.
  - by apply (settle_all_region_failure s r_sum r_cat r_trend).
Qed.

Lemma region_failure_is_isolated_witness :
  ∃ s', settle_all_mounted round_with_region_failure (Mounted page_with_regions)
        = Mounted s'
        ∧ regData s' = regData page_with_regions
        ∧ summary s' = summary_body
        ∧ catData s' = rows "A"
        ∧ trendData s' = VObj [("2022", VArr [])].
Proof.
  apply (region_failure_is_isolated page_with_regions
           {| data := summary_body |}
           (response_with (rows "A"))
           (response_with (VObj [("2022", VArr [])]))).
  - reflexivity.
  - reflexivity.
  - reflexivity.
  - reflexivity.
  - reflexivity.
  - reflexivity.
  - apply (Permutation_app_comm [_; _] [_; _]).
Defined.

(** What a fulfilled response does to the slot of a data endpoint, case by
    case. *)
Lemma slot_settle_fulfilled e r s :
  e ≠ summary_ep →
  slot e (settle e (Fulfilled r) s)
  = match get_data (data r) with
    | Ok d => if truthy d then d else empty_data e
    | Throw => slot e s
    end.
Proof.
  intros He. rewrite slot_settle. unfold slot_after, js_or.
  destruct e; [done|..]; simpl; by destruct (get_data (data r)).
Qed.

(** C9, as stated, fails: a [data] field of the wrong shape that is truthy
    is stored as it is.  A category response whose [data] is the string
    "oops" puts that string in the slot declared [CategoryData[]]. *)
Lemma malformed_truthy_data_is_stored :
  ¬ (∀ (e : Endpoint) (r : AxiosResponse) (s : PageState),
       match expected_field e r with
       | Ok v => fits_declared_type e v = false
       | Throw => True
       end →
       slot e (settle e (Fulfilled r) s) = empty_data e).
Proof.
  intros H.
  specialize (H sales_by_category (response_with (VStr "oops")) initial_state).
  vm_compute in H. specialize (H eq_refl). discriminate.
Qed.

(** C9, amended: for the category, region and trend endpoints, a response
    whose body is not [null] and whose [data] is missing or falsy sets the
    slot to its empty value (an empty array, an empty object for the trend)
    and leaves the other slots alone. *)
Theorem missing_data_defaults_to_empty
    (e : Endpoint) (r : AxiosResponse) (d : Value) (s : PageState) :
  e ≠ summary_ep →
  get_data (data r) = Ok d →
  truthy d = false →
  slot e (settle e (Fulfilled r) s) = empty_data e
  ∧ (∀ e', e' ≠ e → slot e' (settle e (Fulfilled r) s) = slot e' s).
Proof.
  intros He Hd Hfalsy. split.
  - by rewrite slot_settle_fulfilled, Hd, Hfalsy.
  - intros e' Hne. by apply slot_settle_ne.
Qed.

Lemma missing_data_defaults_to_empty_witness :
  slot monthly_trend
    (settle monthly_trend (Fulfilled response_without_data) page_with_trend)
  = VObj []
  ∧ (∀ e', e' ≠ monthly_trend →
       slot e' (settle monthly_trend (Fulfilled response_without_data)
                  page_with_trend)
       = slot e' page_with_trend).
Proof.
  apply (missing_data_defaults_to_empty monthly_trend response_without_data
           VUndefined page_with_trend).
  - discriminate.
  - reflexivity.
  - reflexivity.
Defined.

(** ** The event loop *)

Lemma step_settled w i rq o :
  inflight w !! i = Some rq → step w (Settled i o) = deliver i rq o w.
Proof. intros Hrq. simpl. by rewrite Hrq. Qed.

Lemma page_deliver i rq o w :
  page (deliver i rq o w) = settle (endpoint rq) o (page w).
Proof.
  unfold deliver, settle, handled.
  destruct o as [r|]; [|done]. by destruct (on_fulfilled _ r _).
Qed.

Lemma world_with_stale_request_reachable : reachable world_with_stale_request.
Proof.
  exists [MetadataArrived sample_meta;
          ItemClicked Key.categories (IStr "A");
          Settled 5 (Fulfilled (response_with (rows "new")))].
  by vm_compute.
Qed.

(** C1, as stated, fails: nothing is discarded.  Category A is unticked
    while the first round of requests is out; the category response of the
    second round arrives and is shown; the category response of the first
    round arrives after it and replaces it. *)
Lemma stale_response_overwrites_newer_data :
  ¬ (∀ (w : World) (i : nat) (rq : Request) (o : Outcome) (g2 : nat),
       reachable w →
       inflight w !! i = Some rq →
       slot_gen w (endpoint rq) = Some g2 →
       (gen rq < g2)%nat →
       slot (endpoint rq) (page (step w (Settled i o)))
       = slot (endpoint rq) (page w)).
Proof.
  intros H.
  specialize (H world_with_stale_request 1%nat
                {| gen := 1; endpoint := sales_by_category;
                   payload := body sample_meta |}
                (Fulfilled (response_with (rows "old"))) 2%nat
                world_with_stale_request_reachable eq_refl eq_refl).
  specialize (H ltac:(simpl; lia)).
  vm_compute in H. discriminate.
Qed.

Lemma stored_reached e r :
  e = summary_ep ∨ nullish (data r) = false → ∃ v, stored e r = Ok v.
Proof.
  intros [->|Hbody]; [by eexists|].
  destruct r as [d]. simpl in Hbody.
  destruct e; [by eexists|..]; destruct d; try done; by eexists.
Qed.

Lemma stored_thrown e r :
  e ≠ summary_ep → nullish (data r) = true → stored e r = Throw.
Proof.
  intros He Hbody. destruct r as [d]. simpl in Hbody.
  destruct e; [done|..]; by destruct d.
Qed.

(** C1, amended: what the settling of a request does to its slot depends on
    the endpoint, on the outcome and on what the slot holds, and on no
    generation.  A fulfilled response whose handler reaches its setter
    (any summary response; a category, region or trend response whose body
    is neither [null] nor [undefined]) puts the value the handler computes
    from it in the slot, whatever round the request belongs to and whatever
    round the slot's data came from.  A rejected request and a response
    with a [null] or [undefined] body leave the slot as it is.  The other
    slots are not touched. *)
Theorem response_overwrites_slot
    (w : World) (i : nat) (rq : Request) (o : Outcome) :
  inflight w !! i = Some rq →
  slot (endpoint rq) (page (step w (Settled i o)))
  = slot_after (endpoint rq) o (slot (endpoint rq) (page w))
  ∧ (∀ r, o = Fulfilled r →
          endpoint rq = summary_ep ∨ nullish (data r) = false →
          ∃ v, stored (endpoint rq) r = Ok v
               ∧ slot (endpoint rq) (page (step w (Settled i o))) = v
               ∧ slot_gen (step w (Settled i o)) (endpoint rq)
                 = Some (gen rq))
  ∧ (o = Rejected
     ∨ (∃ r, o = Fulfilled r ∧ endpoint rq ≠ summary_ep
             ∧ nullish (data r) = true) →
     slot (endpoint rq) (page (step w (Settled i o)))
     = slot (endpoint rq) (page w))
  ∧ (∀ e, e ≠ endpoint rq →
       slot e (page (step w (Settled i o))) = slot e (page w)).
Proof.
  intros Hrq. rewrite (step_settled _ _ _ _ Hrq). split_and!.
  - by rewrite page_deliver, slot_settle.
  - intros r -> Hreached.
    destruct (stored_reached _ _ Hreached) as [v Hv]. exists v.
    split_and!; [done| |].
    + by rewrite page_deliver, (settle_stored _ _ _ _ Hv), slot_set_slot.
    + unfold deliver, handled. rewrite on_fulfilled_stored, Hv. simpl.
      apply fn_lookup_insert.
  - intros [->|(r & -> & He & Hbody)]; rewrite page_deliver; [done|].
    by rewrite (settle_thrown _ _ _ (stored_thrown _ _ He Hbody)).
  - intros e Hne. rewrite page_deliver. by apply slot_settle_ne.
Qed.

Lemma response_overwrites_slot_witness :
  ∃ v, stored sales_by_category (response_with (rows "old")) = Ok v
       ∧ slot sales_by_category
           (page (step world_with_stale_request
                    (Settled 1 (Fulfilled (response_with (rows "old"))))))
         = v
       ∧ slot_gen (step world_with_stale_request
                     (Settled 1 (Fulfilled (response_with (rows "old")))))
           sales_by_category
         = Some 1%nat.
Proof.
  apply (proj1 (proj2 (response_overwrites_slot world_with_stale_request 1
                         {| gen := 1; endpoint := sales_by_category;
                            payload := body sample_meta |}
                         (Fulfilled (response_with (rows "old"))) eq_refl))
           (response_with (rows "old")) eq_refl).
  right. reflexivity.
Defined.

(** *** The filters effect *)

Lemma filters_effect_skip w :
  categories (filters (page w)) = [] →
  filters_effect w = next_generation w.
Proof. intros Hnil. unfold filters_effect. simpl. by rewrite Hnil. Qed.

Lemma filters_effect_dispatch w :
  categories (filters (page w)) ≠ [] →
  inflight (filters_effect w)
  = inflight w ++ request_group (S (generation w)) (body (filters (page w)))
  ∧ page (filters_effect w) = setLoading false (page w)
  ∧ generation (filters_effect w) = S (generation w).
Proof.
  intros Hne. unfold filters_effect. simpl.
  destruct (categories (filters (page w))) as [|c cs] eqn:Hc; [done|].
  simpl. split_and!; [|done..]. by rewrite <-!app_assoc.
Qed.

(** C3, as stated, fails: the guard looks at the categories only.  With the
    metadata loaded and everything selected, "Unselect all" on the
    categories posts nothing, although regions and years are selected. *)
Lemma clearing_categories_skips_dispatch :
  ¬ (∀ (w : World) (ev : Event),
       reachable w →
       is_filter_mutation ev = true →
       offered w ev = true →
       inflight (step w ev) = inflight w →
       (∀ key, get key (filters (page (step w ev))) = [])
       ∧ meta (page w) = no_values).
Proof.
  intros H.
  destruct (H (step initial_world (MetadataArrived sample_meta))
              (SelectAllClicked Key.categories)) as [Hall Hmeta].
  - by exists [MetadataArrived sample_meta].
  - reflexivity.
  - reflexivity.
  - reflexivity.
  - vm_compute in Hmeta. discriminate.
Qed.

(** C3, amended: a run of the filters effect posts nothing when no category
    is selected, whatever the other selections and the metadata; when a
    category is selected it posts the four requests, one per endpoint, all
    with the body built from the filters. *)
Theorem dispatch_iff_categories_selected (w : World) :
  (categories (filters (page w)) = [] →
   inflight (filters_effect w) = inflight w)
  ∧ (categories (filters (page w)) ≠ [] →
     inflight (filters_effect w)
     = inflight w
       ++ request_group (S (generation w)) (body (filters (page w)))).
Proof.
  split.
  - intros Hnil. by rewrite filters_effect_skip.
  - intros Hne. by apply filters_effect_dispatch.
Qed.

Lemma dispatch_iff_categories_selected_witness :
  inflight (filters_effect world_no_category) = inflight world_no_category
  ∧ inflight (filters_effect world_all_selected)
    = inflight world_all_selected
      ++ request_group (S (generation world_all_selected))
           (body (filters (page world_all_selected))).
Proof.
  split.
  - apply (dispatch_iff_categories_selected world_no_category). reflexivity.
  - apply (dispatch_iff_categories_selected world_all_selected).
    simpl. discriminate.
Defined.

(** *** The loading indicator *)

Lemma loading_set_slot e v s : loading (set_slot e v s) = loading s.
Proof. by destruct e. Qed.

Lemma loading_settle e o s : loading (settle e o s) = loading s.
Proof.
  destruct o as [r|]; [|done].
  destruct (stored e r) as [v|] eqn:Hv.
  - by rewrite (settle_stored _ _ _ _ Hv), loading_set_slot.
  - by rewrite (settle_thrown _ _ _ Hv).
Qed.

Lemma filters_effect_loading w :
  loading (page w) = false → loading (page (filters_effect w)) = false.
Proof.
  intros Hw. destruct (categories (filters (page w))) as [|c cs] eqn:Hc.
  - by rewrite filters_effect_skip.
  - destruct (filters_effect_dispatch w) as (_ & -> & _); [|done].
    by rewrite Hc.
Qed.

Lemma step_loading w ev :
  loading (page w) = false → loading (page (step w ev)) = false.
Proof.
  intros Hw. destruct ev as [m| |key|key item|i o]; simpl.
  - by apply filters_effect_loading.
  - done.
  - by apply filters_effect_loading.
  - by apply filters_effect_loading.
  - destruct (inflight w !! i) as [rq|]; [|done].
    by rewrite page_deliver, loading_settle.
Qed.

Lemma run_loading evs :
  ∀ w0 w, run w0 evs = Some w →
          loading (page w0) = false → loading (page w) = false.
Proof.
  induction evs as [|ev evs IH]; intros w0 w Hrun Hw0; simpl in Hrun.
  - by injection Hrun as <-.
  - destruct (offered w0 ev); [|done].
    apply (IH _ _ Hrun). by apply step_loading.
Qed.

(** Between two events the indicator is never set, however many requests
    are out: the effect that sets it clears it before it returns. *)
Lemma loading_never_shown w : reachable w → loading (page w) = false.
Proof. intros [evs Hrun]. by apply (run_loading evs initial_world). Qed.

(** C2 does not hold of the code: the filters effect calls
    [setLoading(true)], posts the four requests without awaiting any, and
    calls [setLoading(false)] before it returns.  Right after the metadata
    has arrived, the four requests of the first round are all out and the
    indicator is already off. *)
Theorem loading_cleared_at_dispatch :
  map endpoint (inflight (step initial_world (MetadataArrived sample_meta)))
  = [summary_ep; sales_by_category; sales_by_region; monthly_trend]
  ∧ loading (page (step initial_world (MetadataArrived sample_meta))) = false.
Proof. split; reflexivity. Qed.

(** * Further properties of the page *)

(** ** The order of a selection *)

Section js_set_order.
Context {A : Type} `{EqDecision A}.
Implicit Types (s l : list A) (x y : A).

Lemma JsSet_fold_distinct l : ∀ s, NoDup (s ++ l) → foldl JsSet.add s l = s ++ l.
Proof.
  induction l as [|y l IH]; intros s Hnd; simpl.
  - by rewrite app_nil_r.
  - assert (y ∉ s) as Hy.
    { apply list.NoDup_app in Hnd as (_ & Hdisj & _).
      intros Hin. apply (Hdisj y Hin). apply list_elem_of_here. }
    unfold JsSet.add at 2. apply JsSet_has_false in Hy. rewrite Hy.
    rewrite IH; rewrite <-app_assoc; done.
Qed.

(** A set built from an array without duplicates iterates as the array. *)
Lemma JsSet_new_distinct l : NoDup l → JsSet.new l = l.
Proof. intros Hnd. unfold JsSet.new. by rewrite JsSet_fold_distinct. Qed.

Lemma JsSet_delete_absent s x : x ∉ s → JsSet.delete s x = s.
Proof.
  unfold JsSet.delete. induction s as [|y s IH]; intros Hx; [done|].
  apply not_elem_of_cons in Hx as [Hne Hx].
  rewrite filter_cons_True by done. by rewrite IH.
Qed.

Lemma JsSet_delete_last s x : x ∉ s → JsSet.delete (s ++ [x]) x = s.
Proof.
  intros Hx. unfold JsSet.delete. rewrite list.filter_app.
  rewrite (filter_cons_False _ x []) by (intros Hne; by apply Hne).
  rewrite filter_nil, app_nil_r. by apply JsSet_delete_absent.
Qed.

Lemma JsSet_delete_length s x :
  NoDup s → x ∈ s → S (length (JsSet.delete s x)) = length s.
Proof.
  unfold JsSet.delete. induction s as [|y s IH]; intros Hnd Hx.
  - by apply elem_of_nil in Hx.
  - apply list.NoDup_cons in Hnd as [Hy Hnd].
    destruct (decide (y = x)) as [->|Hne].
    + rewrite filter_cons_False by (intros Hne; by apply Hne).
      fold (JsSet.delete s x). by rewrite JsSet_delete_absent.
    + rewrite filter_cons_True by done. simpl. f_equal. apply IH; [done|].
      apply elem_of_cons in Hx as [->|Hx]; done.
Qed.

End js_set_order.

(** A selection without duplicates: a value that is not selected goes to
    the end of the array; a selected one is taken out and the others keep
    their places; the length moves by one. *)
Theorem toggleItem_on_distinct_selection (key : Key.t) (item : Item) (prev : MetaData) :
  NoDup (get key prev) →
  (item ∉ get key prev →
   get key (toggleItem key item prev) = get key prev ++ [item])
  ∧ (item ∈ get key prev →
     get key (toggleItem key item prev)
     = filter (λ y, y ≠ item) (get key prev)
     ∧ S (length (get key (toggleItem key item prev)))
       = length (get key prev)).
Proof.
  intros Hnd. unfold toggleItem, JsSet.to_array.
  rewrite get_put, (JsSet_new_distinct _ Hnd). split.
  - intros Hout. apply JsSet_has_false in Hout as Hhas. rewrite Hhas.
    unfold JsSet.add. by rewrite Hhas.
  - intros Hin. apply JsSet_has_true in Hin as Hhas. rewrite Hhas.
    split; [done|]. by apply JsSet_delete_length.
Qed.

Lemma toggleItem_on_distinct_selection_witness :
  get Key.regions (toggleItem Key.regions (IStr "North") sample_meta)
  = [IStr "East"; IStr "West"; IStr "North"]
  ∧ get Key.regions (toggleItem Key.regions (IStr "East") sample_meta)
    = [IStr "West"].
Proof.
  split.
  - apply (toggleItem_on_distinct_selection Key.regions (IStr "North")
             sample_meta).
    + apply (bool_decide_unpack _). by vm_compute.
    + apply (bool_decide_unpack _). by vm_compute.
  - apply (toggleItem_on_distinct_selection Key.regions (IStr "East")
             sample_meta).
    + apply (bool_decide_unpack _). by vm_compute.
    + apply (bool_decide_unpack _). by vm_compute.
Defined.

(** Ticking a value and unticking it again gives back the very filters, when
    the selection has no duplicates; unticking and ticking again moves the
    value to the end of the array. *)
Theorem toggleItem_twice_on_distinct_selection
    (key : Key.t) (item : Item) (prev : MetaData) :
  NoDup (get key prev) →
  (item ∉ get key prev →
   toggleItem key item (toggleItem key item prev) = prev)
  ∧ (item ∈ get key prev →
     get key (toggleItem key item (toggleItem key item prev))
     = filter (λ y, y ≠ item) (get key prev) ++ [item]).
Proof.
  intros Hnd.
  destruct (toggleItem_on_distinct_selection key item prev Hnd)
    as [Hout Hin].
  split.
  - intros Hx. specialize (Hout Hx).
    assert (toggleItem key item (toggleItem key item prev)
            = put key (get key prev) prev) as ->; [|apply put_get].
    unfold toggleItem at 1. unfold JsSet.to_array. rewrite Hout.
    assert (NoDup (get key prev ++ [item])) as Hnd'.
    { rewrite <-Hout. apply toggleItem_NoDup. }
    rewrite (JsSet_new_distinct _ Hnd').
    assert (JsSet.has (get key prev ++ [item]) item = true) as ->.
    { apply JsSet_has_true, elem_of_app. right. apply list_elem_of_here. }
    rewrite JsSet_delete_last by done.
    unfold toggleItem. by rewrite put_put.
  - intros Hx. destruct (Hin Hx) as [Heq _].
    destruct (toggleItem_on_distinct_selection key item
                (toggleItem key item prev)) as [Hout' _].
    { apply toggleItem_NoDup. }
    rewrite Hout'; rewrite Heq; [done|].
    rewrite list_elem_of_filter. tauto.
Qed.

Lemma toggleItem_twice_on_distinct_selection_witness :
  toggleItem Key.years (INum 2024) (toggleItem Key.years (INum 2024) sample_meta)
  = sample_meta
  ∧ get Key.years
      (toggleItem Key.years (INum 2022)
         (toggleItem Key.years (INum 2022) sample_meta))
    = [INum 2023; INum 2022].
Proof.
  split.
  - apply (toggleItem_twice_on_distinct_selection Key.years (INum 2024)
             sample_meta).
    + apply (bool_decide_unpack _). by vm_compute.
    + apply (bool_decide_unpack _). by vm_compute.
  - apply (toggleItem_twice_on_distinct_selection Key.years (INum 2022)
             sample_meta).
    + apply (bool_decide_unpack _). by vm_compute.
    + apply (bool_decide_unpack _). by vm_compute.
Defined.

(** Membership after a toggle, in any dimension. *)
Lemma toggleItem_elem_of_any key item prev key' x :
  x ∈ get key' (toggleItem key item prev)
  ↔ (x ∈ get key' prev ↔ (key' = key → x ≠ item)).
Proof.
  destruct (decide (key' = key)) as [->|Hne].
  - rewrite toggleItem_elem_of.
    destruct (decide (x = item)) as [->|?];
      destruct (decide (item ∈ get key prev)); intuition congruence.
  - rewrite toggleItem_other by done. tauto.
Qed.

(** Two clicks on checkboxes select the same values in either order; in
    different dimensions they give the same filters, arrays included. *)
Theorem toggleItem_commutes
    (key1 key2 : Key.t) (item1 item2 : Item) (prev : MetaData) :
  (∀ key,
     selection_set key (toggleItem key1 item1 (toggleItem key2 item2 prev))
     = selection_set key (toggleItem key2 item2 (toggleItem key1 item1 prev)))
  ∧ (key1 ≠ key2 →
     toggleItem key1 item1 (toggleItem key2 item2 prev)
     = toggleItem key2 item2 (toggleItem key1 item1 prev)).
Proof.
  split.
  - intros key. unfold selection_set. apply set_eq. intros x.
    rewrite !elem_of_list_to_set. repeat rewrite toggleItem_elem_of_any.
    destruct (decide (x ∈ get key prev)),
      (decide (key = key1 → x ≠ item1)),
      (decide (key = key2 → x ≠ item2)); tauto.
  - intros Hne. unfold toggleItem.
    rewrite !get_put_ne by done.
    destruct key1, key2; done.
Qed.

(** ** Invariants of the event loop *)

Lemma run_invariant (P : World → Prop) :
  (∀ w ev, P w → offered w ev = true → P (step w ev)) →
  ∀ evs w0 w, run w0 evs = Some w → P w0 → P w.
Proof.
  intros Hstep. induction evs as [|ev evs IH]; intros w0 w Hrun Hw0;
    simpl in Hrun.
  - by injection Hrun as <-.
  - destruct (offered w0 ev) eqn:Hoff; [|done].
    apply (IH _ _ Hrun). by apply Hstep.
Qed.

Lemma reachable_invariant (P : World → Prop) :
  P initial_world →
  (∀ w ev, P w → offered w ev = true → P (step w ev)) →
  ∀ w, reachable w → P w.
Proof.
  intros Hinit Hstep w [evs Hrun].
  by apply (run_invariant P Hstep evs initial_world).
Qed.

(** *** What an event does to [meta], [filters] and [inflight] *)

Lemma meta_set_slot e v s : meta (set_slot e v s) = meta s.
Proof. by destruct e. Qed.

Lemma filters_set_slot e v s : filters (set_slot e v s) = filters s.
Proof. by destruct e. Qed.

Lemma meta_settle e o s : meta (settle e o s) = meta s.
Proof.
  destruct o as [r|]; [|done].
  destruct (stored e r) as [v|] eqn:Hv.
  - by rewrite (settle_stored _ _ _ _ Hv), meta_set_slot.
  - by rewrite (settle_thrown _ _ _ Hv).
Qed.

Lemma filters_settle e o s : filters (settle e o s) = filters s.
Proof.
  destruct o as [r|]; [|done].
  destruct (stored e r) as [v|] eqn:Hv.
  - by rewrite (settle_stored _ _ _ _ Hv), filters_set_slot.
  - by rewrite (settle_thrown _ _ _ Hv).
Qed.

Lemma meta_filters_effect w : meta (page (filters_effect w)) = meta (page w).
Proof.
  destruct (categories (filters (page w))) as [|c cs] eqn:Hc.
  - by rewrite filters_effect_skip.
  - destruct (filters_effect_dispatch w) as (_ & -> & _); [|done].
    by rewrite Hc.
Qed.

Lemma filters_filters_effect w :
  filters (page (filters_effect w)) = filters (page w).
Proof.
  destruct (categories (filters (page w))) as [|c cs] eqn:Hc.
  - by rewrite filters_effect_skip.
  - destruct (filters_effect_dispatch w) as (_ & -> & _); [|done].
    by rewrite Hc.
Qed.

Lemma metadata_pending_filters_effect w :
  metadata_pending (filters_effect w) = metadata_pending w.
Proof.
  unfold filters_effect. simpl.
  by destruct (Nat.eqb (length (categories (filters (page w)))) 0).
Qed.

Lemma inflight_deliver i rq o w :
  inflight (deliver i rq o w) = delete i (inflight w).
Proof. unfold deliver. by destruct (handled _ o _). Qed.

Lemma metadata_pending_deliver i rq o w :
  metadata_pending (deliver i rq o w) = metadata_pending w.
Proof. unfold deliver. by destruct (handled _ o _). Qed.

Lemma step_meta w ev :
  meta (page (step w ev))
  = match ev with
    | MetadataArrived m => m
    | _ => meta (page w)
    end.
Proof.
  destruct ev as [m| |key|key item|i o]; simpl;
    rewrite ?meta_filters_effect; try done.
  destruct (inflight w !! i) as [rq|]; [|done].
  by rewrite page_deliver, meta_settle.
Qed.

Lemma step_filters w ev :
  filters (page (step w ev))
  = match ev with
    | MetadataArrived m => m
    | SelectAllClicked key =>
        toggleSelectAll (meta (page w)) key (filters (page w))
    | ItemClicked key item => toggleItem key item (filters (page w))
    | MetadataFailed | Settled _ _ => filters (page w)
    end.
Proof.
  destruct ev as [m| |key|key item|i o]; simpl;
    rewrite ?filters_filters_effect; try done.
  - by destruct m.
  - destruct (inflight w !! i) as [rq|]; [|done].
    by rewrite page_deliver, filters_settle.
Qed.

(** *** The selection stays within the metadata *)

Lemma step_selection_within_metadata w ev :
  selection_within_metadata (page w) →
  offered w ev = true →
  selection_within_metadata (page (step w ev)).
Proof.
  intros Hinv Hoff key. rewrite step_meta, step_filters.
  destruct ev as [m| |key0|key0 item|i o]; try apply Hinv.
  - split; [done|by right].
  - destruct (decide (key = key0)) as [->|Hne].
    + unfold toggleSelectAll. rewrite get_put.
      destruct (Nat.eqb _ _).
      * split; [by intros x ?%elem_of_nil|left; apply NoDup_nil_2].
      * split; [done|by right].
    + unfold toggleSelectAll. rewrite get_put_ne by done. apply Hinv.
  - destruct (decide (key = key0)) as [->|Hne].
    + split; [|left; apply toggleItem_NoDup].
      intros x [[Hx _]|[-> _]]%toggleItem_elem_of.
      * by apply Hinv.
      * simpl in Hoff. by apply bool_decide_eq_true in Hoff.
    + rewrite toggleItem_other by done. apply Hinv.
Qed.

Lemma initial_selection_within_metadata :
  selection_within_metadata (page initial_world).
Proof. intros key. split; [done|]. by right. Qed.

(** Whatever the user clicks and whatever arrives, every selected value is
    one of the metadata values of its dimension. *)
Theorem selection_stays_within_metadata (w : World) (key : Key.t) (x : Item) :
  reachable w →
  x ∈ get key (filters (page w)) →
  x ∈ get key (meta (page w)).
Proof.
  intros Hw.
  assert (selection_within_metadata (page w)) as Hinv.
  { revert w Hw.
    apply (reachable_invariant (λ w, selection_within_metadata (page w)));
      [apply initial_selection_within_metadata|].
    apply step_selection_within_metadata. }
  apply Hinv.
Qed.

Lemma selection_stays_within_metadata_witness :
  IStr "B" ∈ get Key.categories (meta (page world_after_untick)).
Proof.
  apply (selection_stays_within_metadata world_after_untick).
  - exists [MetadataArrived sample_meta; ItemClicked Key.categories (IStr "A")].
    by vm_compute.
  - apply (bool_decide_unpack _). by vm_compute.
Defined.

(** *** No categories, no requests *)

Lemma step_quiet_without_categories w ev :
  quiet_without_categories w →
  offered w ev = true →
  quiet_without_categories (step w ev).
Proof.
  intros [Hpend Hquiet] Hoff. unfold quiet_without_categories.
  rewrite step_meta, step_filters.
  destruct ev as [m| |key|key item|i o].
  - simpl in Hoff. destruct (Hquiet (Hpend Hoff)) as [Hsel Hout].
    split; [simpl; by rewrite metadata_pending_filters_effect|].
    intros Hm. split; [done|]. simpl.
    rewrite filters_effect_skip; [done|]. simpl. by rewrite Hm.
  - split; [done|]. apply Hquiet.
  - split.
    { simpl. rewrite metadata_pending_filters_effect. apply Hpend. }
    intros Hm. destruct (Hquiet Hm) as [Hsel Hout].
    assert (categories (toggleSelectAll (meta (page w)) key (filters (page w)))
            = []) as Hsel'.
    { unfold toggleSelectAll. destruct key; simpl; [|done..].
      rewrite Hm. by destruct (Nat.eqb _ _). }
    split; [done|]. simpl. rewrite filters_effect_skip; [done|]. done.
  - split.
    { simpl. rewrite metadata_pending_filters_effect. apply Hpend. }
    intros Hm. destruct (Hquiet Hm) as [Hsel Hout].
    simpl in Hoff. apply bool_decide_eq_true in Hoff.
    assert (categories (toggleItem key item (filters (page w))) = [])
      as Hsel'.
    { destruct key; [|done..]. simpl in Hoff. rewrite Hm in Hoff.
      by apply elem_of_nil in Hoff. }
    split; [done|]. simpl. rewrite filters_effect_skip; [done|]. done.
  - simpl. destruct (inflight w !! i) as [rq|] eqn:Hrq; [|by split].
    split.
    { rewrite metadata_pending_deliver. apply Hpend. }
    intros Hm. destruct (Hquiet Hm) as [Hsel Hout].
    rewrite Hout in Hrq. done.
Qed.

(** As long as the metadata the page holds has no category (before the
    metadata arrives, after its request failed, or when the service knows
    none) no category is selected and no request is posted, whatever is
    clicked. *)
Theorem no_request_without_categories (w : World) :
  reachable w →
  categories (meta (page w)) = [] →
  categories (filters (page w)) = [] ∧ inflight w = [].
Proof.
  intros Hw.
  assert (quiet_without_categories w) as [_ Hquiet]; [|done].
  revert w Hw. apply (reachable_invariant quiet_without_categories).
  - split; [done|]. by intros _.
  - apply step_quiet_without_categories.
Qed.

(** *** What the requests carry *)

Lemma body_names_categories f :
  categories f ≠ [] → names_categories (body f).
Proof.
  intros Hne. split.
  - simpl. destruct (categories f) as [|c cs]; [done|]. by exists c, cs.
  - intros key. rewrite body_get. by destruct (get key f).
Qed.

Lemma filters_effect_names_categories w :
  Forall (λ rq, names_categories (payload rq)) (inflight w) →
  Forall (λ rq, names_categories (payload rq)) (inflight (filters_effect w)).
Proof.
  intros Hinv. destruct (categories (filters (page w))) as [|c cs] eqn:Hc.
  - by rewrite filters_effect_skip.
  - destruct (filters_effect_dispatch w) as (-> & _); [by rewrite Hc|].
    apply Forall_app. split; [done|].
    assert (names_categories (body (filters (page w)))) as Hbody.
    { apply body_names_categories. by rewrite Hc. }
    unfold request_group. simpl.
    repeat (apply List.Forall_cons; [exact Hbody|]). apply List.Forall_nil.
Qed.

Lemma step_names_categories w ev :
  Forall (λ rq, names_categories (payload rq)) (inflight w) →
  Forall (λ rq, names_categories (payload rq)) (inflight (step w ev)).
Proof.
  intros Hinv. destruct ev as [m| |key|key item|i o]; simpl.
  - by apply filters_effect_names_categories.
  - done.
  - by apply filters_effect_names_categories.
  - by apply filters_effect_names_categories.
  - destruct (inflight w !! i) as [rq|]; [|done].
    rewrite inflight_deliver. by apply Forall_delete.
Qed.

(** Every request that is out names at least one category, and carries no
    empty array: the [null] branch of the categories field is never taken
    in a request that leaves. *)
Theorem requests_name_categories (w : World) (rq : Request) :
  reachable w →
  rq ∈ inflight w →
  (∃ c cs, Body.categories (payload rq) = Some (c :: cs))
  ∧ ∀ key, Body.get key (payload rq) ≠ Some [].
Proof.
  intros Hw Hrq.
  assert (Forall (λ rq, names_categories (payload rq)) (inflight w)) as Hall.
  { clear Hrq. revert w Hw.
    apply (reachable_invariant
             (λ w, Forall (λ rq, names_categories (payload rq)) (inflight w))).
    - constructor.
    - intros w ev Hinv _. by apply step_names_categories. }
  rewrite list.Forall_forall in Hall. exact (Hall rq Hrq).
Qed.

(** The service knows regions and years but no category: clicks post
    nothing. *)
Lemma no_request_without_categories_witness :
  categories
    (filters
       (page (step
                (step initial_world
                   (MetadataArrived
                      {| categories := []; regions := [IStr "East"];
                         years := [INum 2022] |}))
                (ItemClicked Key.regions (IStr "East")))))
  = []
  ∧ inflight
      (step
         (step initial_world
            (MetadataArrived
               {| categories := []; regions := [IStr "East"];
                  years := [INum 2022] |}))
         (ItemClicked Key.regions (IStr "East")))
    = [].
Proof.
  apply no_request_without_categories.
  - exists [MetadataArrived
              {| categories := []; regions := [IStr "East"];
                 years := [INum 2022] |};
            ItemClicked Key.regions (IStr "East")].
    by vm_compute.
  - reflexivity.
Defined.

Lemma requests_name_categories_witness :
  (∃ c cs,
     Body.categories
       (payload {| gen := 2; endpoint := sales_by_category;
                   payload := body (toggleItem Key.categories (IStr "A")
                                      sample_meta) |})
     = Some (c :: cs))
  ∧ ∀ key,
      Body.get key
        (payload {| gen := 2; endpoint := sales_by_category;
                    payload := body (toggleItem Key.categories (IStr "A")
                                       sample_meta) |})
      ≠ Some [].
Proof.
  apply (requests_name_categories world_after_untick).
  - exists [MetadataArrived sample_meta; ItemClicked Key.categories (IStr "A")].
    by vm_compute.
  - apply (list_elem_of_lookup_2 _ 5). by vm_compute.
Defined.

Lemma loading_never_shown_witness :
  loading (page world_after_untick) = false.
Proof.
  apply (loading_never_shown world_after_untick).
  exists [MetadataArrived sample_meta; ItemClicked Key.categories (IStr "A")].
  by vm_compute.
Defined.

(** ** The buttons and the checkboxes *)

Lemma select_all_label_unselect key s :
  select_all_label key s = "Unselect all"
  ↔ length (get key (filters s)) = length (get key (meta s)).
Proof.
  unfold select_all_label. destruct (Nat.eqb _ _) eqn:Hlen.
  - apply Nat.eqb_eq in Hlen. by split.
  - apply Nat.eqb_neq in Hlen. by split.
Qed.

Lemma select_all_label_select key s :
  select_all_label key s = "Select all"
  ↔ length (get key (filters s)) ≠ length (get key (meta s)).
Proof.
  unfold select_all_label. destruct (Nat.eqb _ _) eqn:Hlen.
  - apply Nat.eqb_eq in Hlen. by split.
  - apply Nat.eqb_neq in Hlen. by split.
Qed.

Lemma checked_true key val s :
  checked key val s = true ↔ val ∈ get key (filters s).
Proof. unfold checked. apply bool_decide_eq_true. Qed.

Lemma checked_false key val s :
  checked key val s = false ↔ val ∉ get key (filters s).
Proof. unfold checked. apply bool_decide_eq_false. Qed.

Lemma toggleSelectAll_tests_cardinality_aux meta prev key :
  (length (get key prev) = length (get key meta) →
   get key (toggleSelectAll meta key prev) = [])
  ∧ (length (get key prev) ≠ length (get key meta) →
     get key (toggleSelectAll meta key prev) = get key meta).
Proof.
  unfold toggleSelectAll. rewrite get_put. split.
  - by intros ->%Nat.eqb_eq.
  - by intros ->%Nat.eqb_neq.
Qed.

(** The button does what it says.  Reading "Select all", a click ticks
    every checkbox of the dimension and the button then reads "Unselect
    all".  Reading "Unselect all", a click unticks every checkbox; the
    button then reads "Select all", except in a dimension without values,
    where it goes on reading "Unselect all". *)
Theorem select_all_button (s : PageState) (key : Key.t) :
  (select_all_label key s = "Select all" →
   (∀ val, val ∈ get key (meta s) →
           checked key val (setFilters (toggleSelectAll (meta s) key) s) = true)
   ∧ select_all_label key (setFilters (toggleSelectAll (meta s) key) s)
     = "Unselect all")
  ∧ (select_all_label key s = "Unselect all" →
     (∀ val, checked key val (setFilters (toggleSelectAll (meta s) key) s)
             = false)
     ∧ (select_all_label key (setFilters (toggleSelectAll (meta s) key) s)
        = "Select all"
        ↔ get key (meta s) ≠ [])).
Proof.
  destruct (toggleSelectAll_tests_cardinality_aux (meta s) (filters s) key)
    as [Heq Hne].
  split.
  - intros Hlabel%select_all_label_select. specialize (Hne Hlabel). split.
    + intros val Hval. apply checked_true. simpl. by rewrite Hne.
    + apply select_all_label_unselect. simpl. by rewrite Hne.
  - intros Hlabel%select_all_label_unselect. specialize (Heq Hlabel). split.
    + intros val. apply checked_false. simpl. rewrite Heq.
      apply not_elem_of_nil.
    + rewrite select_all_label_select. simpl. rewrite Heq. simpl.
      destruct (get key (meta s)); simpl; split; intros ?; done.
Qed.

Lemma select_all_button_witness :
  (∀ val,
     checked Key.regions val
       (setFilters (toggleSelectAll sample_meta Key.regions)
          (on_metadata sample_meta initial_state))
     = false)
  ∧ (select_all_label Key.regions
       (setFilters (toggleSelectAll sample_meta Key.regions)
          (on_metadata sample_meta initial_state))
     = "Select all"
     ↔ get Key.regions sample_meta ≠ []).
Proof.
  apply (select_all_button (on_metadata sample_meta initial_state) Key.regions).
  reflexivity.
Defined.

Lemma reachable_selection_within_metadata w :
  reachable w → selection_within_metadata (page w).
Proof.
  revert w.
  apply (reachable_invariant (λ w, selection_within_metadata (page w))).
  - apply initial_selection_within_metadata.
  - apply step_selection_within_metadata.
Qed.

(** In a state reached through the page, with metadata values that are
    pairwise distinct, the length test behind the button is exact: the
    button reads "Unselect all" if and only if every checkbox of the
    dimension is ticked. *)
Theorem unselect_all_label_iff_all_ticked (w : World) (key : Key.t) :
  reachable w →
  NoDup (get key (meta (page w))) →
  select_all_label key (page w) = "Unselect all"
  ↔ ∀ val, val ∈ get key (meta (page w)) → checked key val (page w) = true.
Proof.
  intros Hw Hmeta.
  destruct (reachable_selection_within_metadata w Hw key) as [Hsub Hshape].
  rewrite select_all_label_unselect. setoid_rewrite checked_true.
  split.
  - intros Hlen val Hval. destruct Hshape as [Hnd|Heq]; [|by rewrite Heq].
    assert (get key (filters (page w)) ≡ₚ get key (meta (page w))) as Hperm.
    { apply submseteq_length_Permutation; [by apply NoDup_submseteq|].
      by rewrite Hlen. }
    by rewrite Hperm.
  - intros Hall. destruct Hshape as [Hnd|Heq]; [|by rewrite Heq].
    assert (get key (filters (page w)) ≡ₚ get key (meta (page w))) as Hperm.
    { apply NoDup_Permutation; [done..|]. intros x. split; auto. }
    by rewrite Hperm.
Qed.

Lemma unselect_all_label_iff_all_ticked_witness :
  select_all_label Key.categories (page world_after_untick) = "Unselect all"
  ↔ ∀ val, val ∈ get Key.categories (meta (page world_after_untick)) →
           checked Key.categories val (page world_after_untick) = true.
Proof.
  apply (unselect_all_label_iff_all_ticked world_after_untick Key.categories).
  - exists [MetadataArrived sample_meta; ItemClicked Key.categories (IStr "A")].
    by vm_compute.
  - apply (bool_decide_unpack _). by vm_compute.
Defined.

(** The hypothesis on the metadata is needed: with the category A sent
    twice, unticking and ticking A leaves its checkbox ticked under a
    button that reads "Select all". *)
Example duplicate_metadata_breaks_length_test :
  checkboxes Key.categories
    (setFilters (toggleItem Key.categories (IStr "A"))
       (setFilters (toggleItem Key.categories (IStr "A"))
          (on_metadata (put Key.categories [IStr "A"; IStr "A"] sample_meta)
             initial_state)))
  = [(IStr "A", true); (IStr "A", true)]
  ∧ select_all_label Key.categories
      (setFilters (toggleItem Key.categories (IStr "A"))
         (setFilters (toggleItem Key.categories (IStr "A"))
            (on_metadata (put Key.categories [IStr "A"; IStr "A"] sample_meta)
               initial_state)))
    = "Select all".
Proof. split; reflexivity. Qed.

(** ** The arrival of the metadata *)

Lemma slot_on_metadata e m s : slot e (on_metadata m s) = slot e s.
Proof. by destruct e. Qed.

Lemma slot_filters_effect e w : slot e (page (filters_effect w)) = slot e (page w).
Proof.
  destruct (categories (filters (page w))) as [|c cs] eqn:Hc.
  - by rewrite filters_effect_skip.
  - destruct (filters_effect_dispatch w) as (_ & -> & _); [by rewrite Hc|].
    by destruct e.
Qed.

Lemma checkboxes_all_ticked key s :
  (∀ val, val ∈ get key (meta s) → val ∈ get key (filters s)) →
  checkboxes key s = map (λ val, (val, true)) (get key (meta s)).
Proof.
  unfold checkboxes. induction (get key (meta s)) as [|val vals IH];
    intros Hall; [done|].
  simpl. f_equal.
  - f_equal. apply checked_true, Hall, list_elem_of_here.
  - apply IH. intros val' Hval'. by apply Hall, list_elem_of_further.
Qed.

(** When the metadata arrives, in whatever state: it becomes both the
    metadata and the selection, so every checkbox is ticked and every
    button reads "Unselect all"; the four requests leave with the body built
    from it if it has a category, and none leaves otherwise; the result
    slots keep what they hold. *)
Theorem metadata_arrival (w : World) (m : MetaData) :
  meta (page (step w (MetadataArrived m))) = m
  ∧ filters (page (step w (MetadataArrived m))) = m
  ∧ (∀ key, checkboxes key (page (step w (MetadataArrived m)))
            = map (λ val, (val, true)) (get key m))
  ∧ (∀ key, select_all_label key (page (step w (MetadataArrived m)))
            = "Unselect all")
  ∧ inflight (step w (MetadataArrived m))
    = inflight w
      ++ (if decide (categories m = []) then []
          else request_group (S (generation w)) (body m))
  ∧ (∀ e, slot e (page (step w (MetadataArrived m))) = slot e (page w)).
Proof.
  assert (meta (page (step w (MetadataArrived m))) = m) as Hmeta
    by apply (step_meta w (MetadataArrived m)).
  assert (filters (page (step w (MetadataArrived m))) = m) as Hfilters
    by apply (step_filters w (MetadataArrived m)).
  split_and!; [done|done| | | |].
  - intros key. rewrite checkboxes_all_ticked; rewrite Hmeta, ?Hfilters; done.
  - intros key. apply select_all_label_unselect. by rewrite Hmeta, Hfilters.
  - simpl. destruct m as [cats regs yrs]. simpl.
    destruct (decide (cats = [])) as [->|Hne].
    + rewrite filters_effect_skip by done. simpl. by rewrite app_nil_r.
    + by destruct (filters_effect_dispatch
                     {| page := on_metadata
                                  {| categories := cats; regions := regs;
                                     years := yrs |} (page w);
                        metadata_pending := false; inflight := inflight w;
                        generation := generation w; slot_gen := slot_gen w |})
        as (-> & _).
  - intros e. unfold step. rewrite slot_filters_effect. apply slot_on_metadata.
Qed.

(** ** The charts *)

Lemma get_field_Ok name v :
  (∃ x, get_field name v = Ok x) ↔ nullish v = false.
Proof.
  destruct v; simpl; split; try done; try (intros [? ?]; done);
    intros _; eexists; done.
Qed.

Lemma map_result_Ok {A B} (f : A → result B) (l : list A) :
  (∃ ys, map_result f l = Ok ys) ↔ Forall (λ x, ∃ y, f x = Ok y) l.
Proof.
  induction l as [|x l IH]; simpl.
  - split; [intros _; constructor|]. intros _. by eexists.
  - rewrite list.Forall_cons, <-IH. split.
    + intros [ys Hys]. destruct (f x) as [y|]; [|done]. simpl in Hys.
      destruct (map_result f l) as [ys'|]; [|done].
      split; by eexists.
    + intros [[y Hy] [ys Hys]]. rewrite Hy, Hys. by eexists.
Qed.

Lemma map_result_length {A B} (f : A → result B) (l : list A) ys :
  map_result f l = Ok ys → length ys = length l.
Proof.
  revert ys. induction l as [|x l IH]; intros ys; simpl.
  - by intros [= <-].
  - destruct (f x) as [y|]; [|done]. simpl.
    destruct (map_result f l) as [ys'|]; [|done]. simpl.
    intros [= <-]. simpl. f_equal. by apply IH.
Qed.

Lemma column_Ok name rows :
  (∃ xs, column name rows = Ok xs)
  ↔ ∃ elems, rows = VArr elems ∧ Forall (λ d, nullish d = false) elems.
Proof.
  destruct rows as [| | | | |elems|]; simpl;
    try (split; [intros [? ?]; done|intros (? & ? & _); done]).
  rewrite map_result_Ok. split.
  - intros Hall. exists elems. split; [done|].
    eapply list.Forall_impl; [exact Hall|]. intros d. apply get_field_Ok.
  - intros (elems' & [= <-] & Hall).
    eapply list.Forall_impl; [exact Hall|]. intros d. apply get_field_Ok.
Qed.

(** A chart can be drawn exactly from an array none of whose elements is
    [null] or [undefined]; anything else makes the render throw.  When it
    can be drawn, each of its two coordinate arrays has one entry per
    row. *)
Theorem chart_renders_iff (xname yname : string) (rows : Value) :
  ((∃ xs ys, chart xname yname rows = Ok (xs, ys))
   ↔ ∃ elems, rows = VArr elems ∧ Forall (λ d, nullish d = false) elems)
  ∧ (∀ xs ys, chart xname yname rows = Ok (xs, ys) →
              ∃ elems, rows = VArr elems
                       ∧ length xs = length elems
                       ∧ length ys = length elems).
Proof.
  split.
  - split.
    + intros (xs & ys & Hchart). apply (column_Ok xname).
      unfold chart in Hchart.
      destruct (column xname rows) as [xs'|]; [by eexists|done].
    + intros Hrows.
      destruct (proj2 (column_Ok xname rows) Hrows) as [xs Hxs].
      destruct (proj2 (column_Ok yname rows) Hrows) as [ys Hys].
      exists xs, ys. unfold chart. by rewrite Hxs, Hys.
  - intros xs ys Hchart. unfold chart in Hchart.
    destruct (column xname rows) as [xs'|] eqn:Hxs; [|done].
    destruct (column yname rows) as [ys'|] eqn:Hys; [|done].
    simpl in Hchart. injection Hchart as <- <-.
    destruct rows as [| | | | |elems|]; try done.
    exists elems. simpl in Hxs, Hys.
    split_and!; [done|by eapply map_result_length..].
Qed.

(** A response whose [data] is truthy but not an array passes the [||] of
    the handler and lands in the slot; the chart of that slot then throws
    at the next render. *)
Theorem non_array_data_breaks_chart
    (r : AxiosResponse) (d : Value) (s : PageState) :
  get_data (data r) = Ok d →
  truthy d = true →
  (∀ elems, d ≠ VArr elems) →
  category_chart (settle sales_by_category (Fulfilled r) s) = Throw
  ∧ region_chart (settle sales_by_region (Fulfilled r) s) = Throw.
Proof.
  intros Hd Htruthy Hshape.
  assert (∀ xname yname, chart xname yname d = Throw) as Hchart.
  { intros xname yname. destruct d; try done. by destruct (Hshape elems). }
  split.
  - unfold category_chart.
    change (catData ?s) with (slot sales_by_category s).
    by rewrite slot_settle_fulfilled, Hd, Htruthy.
  - unfold region_chart.
    change (regData ?s) with (slot sales_by_region s).
    by rewrite slot_settle_fulfilled, Hd, Htruthy.
Qed.

Lemma non_array_data_breaks_chart_witness :
  category_chart
    (settle sales_by_category (Fulfilled (response_with (VStr "oops")))
       initial_state)
  = Throw
  ∧ region_chart
      (settle sales_by_region (Fulfilled (response_with (VStr "oops")))
         initial_state)
    = Throw.
Proof.
  apply (non_array_data_breaks_chart (response_with (VStr "oops"))
           (VStr "oops") initial_state).
  - reflexivity.
  - reflexivity.
  - intros elems. discriminate.
Defined.

(** ** Settlements *)

Lemma loading_settle_all order : ∀ s, loading (settle_all order s) = loading s.
Proof.
  induction order as [|[e o] order IH]; intros s; [done|].
  by rewrite settle_all_cons, IH, loading_settle.
Qed.

Lemma meta_settle_all order : ∀ s, meta (settle_all order s) = meta s.
Proof.
  induction order as [|[e o] order IH]; intros s; [done|].
  by rewrite settle_all_cons, IH, meta_settle.
Qed.

Lemma filters_settle_all order : ∀ s, filters (settle_all order s) = filters s.
Proof.
  induction order as [|[e o] order IH]; intros s; [done|].
  by rewrite settle_all_cons, IH, filters_settle.
Qed.

Lemma PageState_ext s1 s2 :
  meta s1 = meta s2 → filters s1 = filters s2 → loading s1 = loading s2 →
  (∀ e, slot e s1 = slot e s2) →
  s1 = s2.
Proof.
  intros Hmeta Hfilters Hloading Hslot.
  pose proof (Hslot summary_ep). pose proof (Hslot sales_by_category).
  pose proof (Hslot sales_by_region). pose proof (Hslot monthly_trend).
  destruct s1, s2. simpl in *. congruence.
Qed.

(** Settlements of different endpoints can arrive in any order: the page
    ends in the same state. *)
Theorem settle_all_order_irrelevant
    (order1 order2 : list (Endpoint * Outcome)) (s : PageState) :
  NoDup order1.*1 →
  order1 ≡ₚ order2 →
  settle_all order1 s = settle_all order2 s.
Proof.
  intros Hnd1 Hperm.
  assert (NoDup order2.*1) as Hnd2 by by rewrite <-Hperm.
  apply PageState_ext.
  - by rewrite !meta_settle_all.
  - by rewrite !filters_settle_all.
  - by rewrite !loading_settle_all.
  - intros e. destruct (decide (e ∈ order1.*1)) as [Hin|Hout].
    + apply list_elem_of_fmap in Hin as ([e' o] & -> & Hin). simpl.
      rewrite (settle_all_slot e' o order1) by done.
      rewrite (settle_all_slot e' o order2); [done..|]. by rewrite <-Hperm.
    + rewrite settle_all_untouched by done.
      rewrite settle_all_untouched; [done|]. by rewrite <-Hperm.
Qed.

Lemma settle_all_order_irrelevant_witness :
  settle_all
    [(sales_by_region, Rejected);
     (sales_by_category, Fulfilled (response_with (rows "A")))]
    initial_state
  = settle_all
      [(sales_by_category, Fulfilled (response_with (rows "A")));
       (sales_by_region, Rejected)]
      initial_state.
Proof.
  apply settle_all_order_irrelevant.
  - apply (bool_decide_unpack _). by vm_compute.
  - apply perm_swap.
Defined.

(** A response changes neither the metadata nor the selection nor the
    loading indicator, and leaves no request out that was not out before:
    the arrival of a response does not make the page query again. *)
Theorem settling_posts_nothing (w : World) (i : nat) (o : Outcome) :
  meta (page (step w (Settled i o))) = meta (page w)
  ∧ filters (page (step w (Settled i o))) = filters (page w)
  ∧ loading (page (step w (Settled i o))) = loading (page w)
  ∧ inflight (step w (Settled i o)) `sublist_of` inflight w.
Proof.
  split_and!.
  - apply (step_meta w (Settled i o)).
  - apply (step_filters w (Settled i o)).
  - simpl. destruct (inflight w !! i) as [rq|]; [|done].
    by rewrite page_deliver, loading_settle.
  - simpl. destruct (inflight w !! i) as [rq|] eqn:Hrq.
    + rewrite inflight_deliver. apply sublist_delete.
    + done.
Qed.

(** ** Clicks and the requests they post *)

(** After the first click the button alternates between everything and
    nothing: a third click does what the first did. *)
Theorem toggleSelectAll_thrice (meta prev : MetaData) (key : Key.t) :
  toggleSelectAll meta key
    (toggleSelectAll meta key (toggleSelectAll meta key prev))
  = toggleSelectAll meta key prev.
Proof.
  unfold toggleSelectAll at 1.
  rewrite toggleSelectAll_twice_get.
  unfold toggleSelectAll. rewrite !put_put. f_equal.
  destruct (Nat.eqb (length (get key prev)) (length (get key meta))) eqn:Hlen.
  - rewrite Nat.eqb_refl. done.
  - destruct (get key meta) as [|m ms]; done.
Qed.

Lemma inflight_filters_effect w :
  inflight (filters_effect w)
  = inflight w
    ++ (if decide (categories (filters (page w)) = []) then []
        else request_group (S (generation w)) (body (filters (page w)))).
Proof.
  destruct (decide (categories (filters (page w)) = [])) as [Hnil|Hne].
  - rewrite filters_effect_skip by done. simpl. by rewrite app_nil_r.
  - by destruct (filters_effect_dispatch w Hne) as (-> & _).
Qed.

Lemma inflight_step w ev :
  inflight (step w ev)
  = match ev with
    | MetadataFailed => inflight w
    | Settled i _ =>
        match inflight w !! i with
        | Some _ => delete i (inflight w)
        | None => inflight w
        end
    | _ =>
        inflight w
        ++ (if decide (categories (filters (page (step w ev))) = []) then []
            else request_group (S (generation w))
                   (body (filters (page (step w ev)))))
    end.
Proof.
  destruct ev as [m| |key|key item|i o]; unfold step;
    rewrite ?inflight_filters_effect, ?filters_filters_effect; try done.
  destruct (inflight w !! i) as [rq|]; [|done]. apply inflight_deliver.
Qed.

(** A click on a button or a checkbox posts the four requests with the
    selection as it is after the click, when that selection has a category;
    it posts nothing when it has none. *)
Theorem click_posts_new_selection (w : World) (ev : Event) :
  is_filter_mutation ev = true →
  inflight (step w ev)
  = inflight w
    ++ (if decide (categories (filters (page (step w ev))) = []) then []
        else request_group (S (generation w))
               (body (filters (page (step w ev))))).
Proof.
  intros Hev. rewrite inflight_step at 1. by destruct ev.
Qed.

Lemma click_posts_new_selection_witness :
  inflight world_after_untick
  = inflight (step initial_world (MetadataArrived sample_meta))
    ++ (if decide (categories (filters (page world_after_untick)) = [])
        then []
        else request_group
               (S (generation (step initial_world (MetadataArrived sample_meta))))
               (body (filters (page world_after_untick)))).
Proof.
  apply (click_posts_new_selection
           (step initial_world (MetadataArrived sample_meta))
           (ItemClicked Key.categories (IStr "A"))).
  reflexivity.
Defined.

(** *** Requests list metadata values only *)

Lemma body_get_Some key f l : Body.get key (body f) = Some l → l = get key f.
Proof.
  rewrite body_get. unfold or_null. destruct (Nat.eqb _ _); congruence.
Qed.

Lemma body_lists_metadata_values s :
  selection_within_metadata s →
  lists_metadata_values (meta s) (body (filters s)).
Proof. intros Hinv key l ->%body_get_Some. apply Hinv. Qed.

Lemma Forall_request_group (P : Body.t → Prop) g b :
  P b → Forall (λ rq, P (payload rq)) (request_group g b).
Proof.
  intros Hb. unfold request_group. simpl.
  repeat (apply List.Forall_cons; [exact Hb|]). apply List.Forall_nil.
Qed.

Lemma step_requests_within_metadata w ev :
  selection_within_metadata (page w) →
  quiet_without_categories w →
  requests_within_metadata w →
  offered w ev = true →
  requests_within_metadata (step w ev).
Proof.
  intros Hsel [Hpend Hquiet] Hreq Hoff.
  pose proof (body_lists_metadata_values _
                (step_selection_within_metadata w ev Hsel Hoff)) as Hnew.
  unfold requests_within_metadata in *.
  rewrite inflight_step.
  destruct ev as [m| |key|key item|i o].
  - simpl in Hoff. destruct (Hquiet (Hpend Hoff)) as [_ ->].
    rewrite app_nil_l. case_decide; [constructor|].
    by apply Forall_request_group.
  - by rewrite step_meta.
  - apply Forall_app. rewrite step_meta in *. split; [done|].
    case_decide; [constructor|]. by apply Forall_request_group.
  - apply Forall_app. rewrite step_meta in *. split; [done|].
    case_decide; [constructor|]. by apply Forall_request_group.
  - rewrite step_meta.
    destruct (inflight w !! i); [by apply Forall_delete|done].
Qed.

(** Every list in the body of a request that is out holds values of the
    metadata only, and holds none twice unless it is the metadata array
    itself: no value the service did not offer goes back to it. *)
Theorem requests_list_metadata_values
    (w : World) (rq : Request) (key : Key.t) (l : list Item) :
  reachable w →
  rq ∈ inflight w →
  Body.get key (payload rq) = Some l →
  (∀ x, x ∈ l → x ∈ get key (meta (page w)))
  ∧ (NoDup l ∨ l = get key (meta (page w))).
Proof.
  intros Hw Hrq Hl.
  assert (selection_within_metadata (page w) ∧ quiet_without_categories w
          ∧ requests_within_metadata w) as (_ & _ & Hall).
  { clear Hrq Hl. revert w Hw.
    apply (reachable_invariant
             (λ w, selection_within_metadata (page w)
                   ∧ quiet_without_categories w
                   ∧ requests_within_metadata w)).
    - split_and!.
      + apply initial_selection_within_metadata.
      + split; [done|]. by intros _.
      + constructor.
    - intros w ev (Hsel & Hquiet & Hreq) Hoff. split_and!.
      + by apply step_selection_within_metadata.
      + by apply step_quiet_without_categories.
      + by apply step_requests_within_metadata. }
  unfold requests_within_metadata in Hall.
  rewrite list.Forall_forall in Hall. exact (Hall rq Hrq key l Hl).
Qed.

Lemma requests_list_metadata_values_witness :
  (∀ x, x ∈ [IStr "B"] →
        x ∈ get Key.categories (meta (page world_after_untick)))
  ∧ (NoDup [IStr "B"]
     ∨ [IStr "B"] = get Key.categories (meta (page world_after_untick))).
Proof.
  apply (requests_list_metadata_values world_after_untick
           {| gen := 2; endpoint := sales_by_category;
              payload := body (toggleItem Key.categories (IStr "A")
                                 sample_meta) |}).
  - exists [MetadataArrived sample_meta; ItemClicked Key.categories (IStr "A")].
    by vm_compute.
  - apply (list_elem_of_lookup_2 _ 5). by vm_compute.
  - reflexivity.
Defined.

(** ** Instances on the sample data *)

Lemma toggleItem_commutes_witness :
  toggleItem Key.regions (IStr "East")
    (toggleItem Key.years (INum 2022) sample_meta)
  = toggleItem Key.years (INum 2022)
      (toggleItem Key.regions (IStr "East") sample_meta).
Proof.
  apply (toggleItem_commutes Key.regions Key.years (IStr "East") (INum 2022)
           sample_meta).
  discriminate.
Defined.

Lemma chart_renders_iff_witness :
  ∃ elems, rows "A" = VArr elems
           ∧ length [VStr "A"] = length elems
           ∧ length [VNum 10] = length elems.
Proof.
  apply (chart_renders_iff "Category" "Sales" (rows "A")).
  reflexivity.
Defined.
